(** * scalable-irl: the state graph, the reward priors, the PolicyWalk
      proposal and the BIRL solver loops, embedded from the Python sources

    Embedded files:
    - [sirl/models/state_graph.py]      (module [StateGraph])
    - [sirl/algorithms/birl/base.py]    (module [Base])
    - [sirl/algorithms/graph_birl.py]   (module [GraphBirl])

    Conventions of the embedding.
    - Python floats are real numbers ([R]); rounding, overflow and
      underflow are not modelled.  Comparisons on them are decided through
      [Decision] instances.
    - Python dictionaries and sets are stdpp's [gmap] and [gset].  The
      order in which the interpreter iterates them is that of its hash
      tables.  Listings whose order no statement below depends on go
      through [map_to_list] and [elements]; where the order shows in a
      result ([find_neighbors_k]) it is a parameter, a [Py.Order].
    - Exceptions are an [Outcome]; code that also mutates the graph or
      issues warnings runs in the state monad [M] over a [Heap]. *)

From Stdlib Require Import Reals Lra Lia ZArith.
From stdpp Require Import gmap strings list sorting.

Open Scope R_scope.

#[global] Instance Rle_decision : RelDecision Rle := Rle_dec.
#[global] Instance Rlt_decision : RelDecision Rlt := Rlt_dec.
#[global] Instance Req_decision : EqDecision R := Req_dec_T.

(* ================================================================== *)
(** ** Python values, exceptions, and the two monads *)

Module Py.

(** The values that travel through the modelled code: [None], integers,
    floats, strings, and one- and two-dimensional numeric arrays (a Python
    list of numbers and a numpy array are not told apart). *)
Inductive Value : Type :=
| VNone
| VInt (z : Z)
| VFloat (x : R)
| VStr (s : string)
| VVec (v : list R)
| VMat (m : list (list R)).

Inductive Exn : Type :=
| AssertionError
| AttributeError
| IndexError
| KeyError
| TypeError
| ValueError
| NetworkXError.

Inductive Outcome (A : Type) : Type :=
| Ok (a : A)
| Raise (e : Exn).
Arguments Ok {A} a.
Arguments Raise {A} e.

#[global] Instance Outcome_ret : MRet Outcome := fun A a => Ok a.
#[global] Instance Outcome_bind : MBind Outcome := fun A B f m =>
  match m with
  | Ok a => f a
  | Raise e => Raise e
  end.

(** [assert c] *)
Definition py_assert (c : bool) : Outcome unit :=
  if c then Ok tt else Raise AssertionError.

(** [d[k]] on a dictionary: [KeyError] when the key is absent. *)
Definition getitem `{Countable K} {V} (d : gmap K V) (k : K) : Outcome V :=
  match d !! k with
  | Some v => Ok v
  | None => Raise KeyError
  end.

(** [[f(x) for x in l]] where [f] may raise: the first exception wins. *)
Fixpoint for_each {A B} (f : A -> Outcome B) (l : list A) : Outcome (list B) :=
  match l with
  | [] => Ok []
  | x :: l' => y ← f x; ys ← for_each f l'; Ok (y :: ys)
  end.

(** [filter(p, l)] where [p] may raise. *)
Fixpoint py_filter {A} (p : A -> Outcome bool) (l : list A) : Outcome (list A) :=
  match l with
  | [] => Ok []
  | x :: l' => b ← p x; ys ← py_filter p l'; Ok (if b : bool then x :: ys else ys)
  end.

(** [numpy.ndim(asarray(v))]. A list of rows is two-dimensional when it is
    not empty and its rows have one length. *)
Definition rectangular (m : list (list R)) : bool :=
  match m with
  | [] => false
  | row :: rows => forallb (fun r => Nat.eqb (length r) (length row)) rows
  end.

Definition ndim (v : Value) : Z :=
  match v with
  | VVec _ => 1
  | VMat m => if rectangular m then 2 else 1
  | _ => 0
  end%Z.

(** [numpy.dot] on the values the solvers pass to it. *)
Fixpoint dot (u v : list R) : R :=
  match u, v with
  | x :: u', y :: v' => x * y + dot u' v'
  | _, _ => 0
  end.

Definition np_dot (a b : Value) : Outcome Value :=
  match a, b with
  | VVec u, VVec v =>
      if Nat.eqb (length u) (length v) then Ok (VFloat (dot u v))
      else Raise ValueError
  | VFloat x, VFloat y => Ok (VFloat (x * y))
  | VInt x, VInt y => Ok (VInt (x * y))
  | VInt x, VFloat y => Ok (VFloat (IZR x * y))
  | VFloat x, VInt y => Ok (VFloat (x * IZR y))
  | VVec u, VFloat y => Ok (VVec (map (fun x => x * y) u))
  | VFloat x, VVec v => Ok (VVec (map (fun y => x * y) v))
  | VVec u, VInt y => Ok (VVec (map (fun x => x * IZR y) u))
  | VInt x, VVec v => Ok (VVec (map (fun y => IZR x * y) v))
  | _, _ => Raise TypeError
  end.

(** [-1 * v] *)
Definition neg_one_times (v : Value) : Outcome Value :=
  match v with
  | VInt z => Ok (VInt (-1 * z))
  | VFloat x => Ok (VFloat (-1 * x))
  | VVec u => Ok (VVec (map (fun x => -1 * x) u))
  | VMat m => Ok (VMat (map (map (fun x => -1 * x)) m))
  | VStr _ => Ok (VStr EmptyString)
  | VNone => Raise TypeError
  end.

(** [x ** y] on floats: [1] at exponent [0] whatever the base, [0] for
    the base [0] and the real power for a positive base.  A negative
    base, and the base [0] under a negative exponent, are not followed. *)
Definition float_pow (x y : R) : R :=
  if decide (y = 0) then 1
  else if decide (x = 0) then 0
  else Rpower x y.

(** Storing a float into an integer array: the fraction is dropped, the
    value rounded toward zero. *)
Definition trunc (y : R) : Z :=
  if decide (0 <= y) then Int_part y else (- Int_part (- y))%Z.

(** [l[:k]] *)
Definition slice_to {A} (l : list A) (k : Z) : list A :=
  if decide (0 <= k)%Z then take (Z.to_nat k) l
  else take (length l - Z.to_nat (- k)) l.

(** [sorted(l, key=key)]: a stable sort, ascending in the key. Insertion
    from the right keeps equal keys in their input order. *)
Fixpoint insert_by {A} (key : A -> R) (x : A) (l : list A) : list A :=
  match l with
  | [] => [x]
  | y :: l' => if decide (key x <= key y) then x :: y :: l'
               else y :: insert_by key x l'
  end.

Fixpoint sorted {A} (key : A -> R) (l : list A) : list A :=
  match l with
  | [] => []
  | x :: l' => insert_by key x (sorted key l')
  end.

(** The order in which a [set] or the keys of a [dict] are iterated: some
    listing of the same elements, fixed by the interpreter's hash table
    and not by the code. *)
Record Order : Type := mkOrder {
  iter : list Z -> list Z;
  iter_Permutation : forall l, iter l ≡ₚ l
}.

(** Small non-negative integers in ascending order, as CPython lists a
    set of them. *)
Definition ascending : Order :=
  mkOrder (merge_sort Z.le) (merge_sort_Permutation Z.le).

End Py.
Import Py.

(* ================================================================== *)
(** ** networkx.DiGraph, the part the state graph calls

    [node] is the dictionary of node attribute dictionaries, [succ] the
    adjacency dictionary ([G.edge], [G.adj]).  The predecessor dictionary
    mirrors [succ] and is never read by the modelled code, so it is not
    carried. *)

Module Nx.

Abbreviation AttrDict := (gmap string Value).

Record DiGraph : Type := mkDiGraph {
  node : gmap Z AttrDict;
  succ : gmap Z (gmap Z AttrDict)
}.

Definition empty : DiGraph := mkDiGraph ∅ ∅.

(** [n in G] *)
Definition has_node (g : DiGraph) (n : Z) : bool :=
  bool_decide (is_Some (node g !! n)).

(** [G.has_edge(u, v)] *)
Definition has_edge (g : DiGraph) (u v : Z) : bool :=
  match succ g !! u with
  | Some nbrs => bool_decide (is_Some (nbrs !! v))
  | None => false
  end.

(** [G.nodes()]: the keys of the node dictionary, each once.  Python
    lists them in the dictionary's own order; this listing, and those of
    [edges], [out_edges] and [neighbors], stand for the same elements and
    are used for membership and counting. *)
Definition nodes (g : DiGraph) : list Z := (map_to_list (node g)).*1.

(** [G.edges()] *)
Definition edges (g : DiGraph) : list (Z * Z) :=
  '(u, nbrs) ← map_to_list (succ g); (fun v => (u, v)) <$> (map_to_list nbrs).*1.

(** [G.out_edges(n)] for a single node [n] *)
Definition out_edges (g : DiGraph) (n : Z) : Outcome (list (Z * Z)) :=
  if has_node g n then
    nbrs ← getitem (succ g) n; Ok ((fun v => (n, v)) <$> (map_to_list nbrs).*1)
  else Raise NetworkXError.

(** [G.add_node(n, **attrs)] *)
Definition add_node (g : DiGraph) (n : Z) (attrs : AttrDict) : DiGraph :=
  match succ g !! n with
  | None => mkDiGraph (<[n := attrs]> (node g)) (<[n := ∅]> (succ g))
  | Some _ => mkDiGraph (<[n := attrs ∪ default ∅ (node g !! n)]> (node g)) (succ g)
  end.

(** [G.add_edge(u, v, **attrs)]: missing end points are created bare. *)
Definition touch (g : DiGraph) (n : Z) : DiGraph :=
  match succ g !! n with
  | None => mkDiGraph (<[n := ∅]> (node g)) (<[n := ∅]> (succ g))
  | Some _ => g
  end.

Definition add_edge (g : DiGraph) (u v : Z) (attrs : AttrDict) : DiGraph :=
  let g1 := touch (touch g u) v in
  let nbrs := default ∅ (succ g1 !! u) in
  let datadict := attrs ∪ default ∅ (nbrs !! v) in
  mkDiGraph (node g1) (<[u := <[v := datadict]> nbrs]> (succ g1)).

(** [G.remove_edge(u, v)] *)
Definition remove_edge (g : DiGraph) (u v : Z) : Outcome DiGraph :=
  match succ g !! u with
  | Some nbrs =>
      match nbrs !! v with
      | Some _ => Ok (mkDiGraph (node g) (<[u := delete v nbrs]> (succ g)))
      | None => Raise NetworkXError
      end
  | None => Raise NetworkXError
  end.

(** [G.remove_node(n)]: the node goes with its outgoing and its incoming
    edges. *)
Definition remove_node (g : DiGraph) (n : Z) : Outcome DiGraph :=
  match succ g !! n, node g !! n with
  | Some _, Some _ =>
      Ok (mkDiGraph (delete n (node g)) (delete n <$> delete n (succ g)))
  | _, _ => Raise NetworkXError
  end.

(** [G.neighbors(n)]: the successors of [n] *)
Definition neighbors (g : DiGraph) (n : Z) : Outcome (list Z) :=
  match succ g !! n with
  | Some nbrs => Ok (map_to_list nbrs).*1
  | None => Raise NetworkXError
  end.

(** What networkx keeps true of a graph: the node dictionary and the
    adjacency dictionary have the same keys, and edges end in nodes. *)
Definition consistent (g : DiGraph) : Prop :=
  (forall n, is_Some (node g !! n) <-> is_Some (succ g !! n)) /\
  (forall u v, has_edge g u v = true -> is_Some (node g !! v)).

End Nx.

(* ================================================================== *)
(** ** sirl/models/state_graph.py *)

Module StateGraph.

Definition _node_attrs : list string :=
  ["data"; "cost"; "priority"; "Q"; "V"; "pi"; "type"]%string.
Definition _edge_attrs : list string :=
  ["source"; "target"; "duration"; "reward"; "phi"; "traj"]%string.

(** The object: [self._graph] and [self._state_dim]. *)
Record t : Type := mk {
  G : Nx.DiGraph;
  _state_dim : Z
}.

(** [StateGraph(state_dim)] *)
Definition init (state_dim : Z) : Outcome t :=
  _ ← py_assert (bool_decide (0 < state_dim)%Z); Ok (mk Nx.empty state_dim).

(** The three [warnings.warn] calls of the class. *)
Inductive Warning : Type :=
| NodeExists
| SameNodes (source target : Z)
| EdgeExists (source target : Z).

(** What a method call can change: the object and the warnings issued so
    far.  An exception leaves both as they were when it was raised. *)
Record Heap : Type := mkHeap {
  self : t;
  warned : list Warning
}.

Definition M (A : Type) : Type := Heap -> Outcome A * Heap.

#[global] Instance M_ret : MRet M := fun A a h => (Ok a, h).
#[global] Instance M_bind : MBind M := fun A B f m h =>
  match m h with
  | (Ok a, h') => f a h'
  | (Raise e, h') => (Raise e, h')
  end.

Definition lift {A} (o : Outcome A) : M A := fun h => (o, h).
Definition warn (w : Warning) : M unit :=
  fun h => (Ok tt, mkHeap (self h) (warned h ++ [w])).
Definition get_self : M t := fun h => (Ok (self h), h).
Definition set_G (g : Nx.DiGraph) : M unit :=
  fun h => (Ok tt, mkHeap (mk g (_state_dim (self h))) (warned h)).

(** [len(asarray(v))] *)
Definition py_len (v : Value) : Outcome Z :=
  match v with
  | VVec l => Ok (Z.of_nat (length l))
  | VMat m => Ok (Z.of_nat (length m))
  | _ => Raise TypeError
  end.

Definition add_node (nid : Z) (data cost priority Q V pi ntype : Value) : M unit :=
  sg ← get_self;
  n ← lift (py_len data);
  _ ← lift (py_assert (bool_decide (n = _state_dim sg)));
  if negb (Nx.has_node (G sg) nid) then
    set_G (Nx.add_node (G sg) nid
             (<["data" := data]> (<["cost" := cost]> (<["priority" := priority]>
              (<["Q" := Q]> (<["V" := V]> (<["pi" := pi]>
              (<["type" := ntype]> ∅))))))))
  else warn NodeExists.

Definition add_edge (source target : Z) (duration : R) (reward phi traj : Value)
  : M unit :=
  _ ← lift (py_assert (bool_decide (0 <= duration)));
  _ ← lift (py_assert (bool_decide (ndim traj = 2%Z)));
  sg ← get_self;
  if decide (source = target) then warn (SameNodes source target)
  else if negb (Nx.has_edge (G sg) source target) then
    set_G (Nx.add_edge (G sg) source target
             (<["duration" := VFloat duration]> (<["reward" := reward]>
              (<["phi" := phi]> (<["traj" := traj]> ∅)))))
  else warn (EdgeExists source target).

Definition remove_edge (source target : Z) : M unit :=
  _ ← (if decide (source = target) then warn (SameNodes source target)
       else mret tt);
  sg ← get_self;
  g ← lift (Nx.remove_edge (G sg) source target);
  set_G g.

Definition edge_exists (sg : t) (source target : Z) : bool :=
  Nx.has_edge (G sg) source target.

Definition out_edges (sg : t) (nid : Z) : Outcome (list (Z * Z)) :=
  Nx.out_edges (G sg) nid.

Definition all_edges (sg : t) : list (Z * Z) := Nx.edges (G sg).

Definition _check_node_attributes (sg : t) (node_id : Z) (attribute : string)
  : Outcome unit :=
  _ ← py_assert (bool_decide (attribute ∈ _node_attrs));
  py_assert (bool_decide (node_id ∈ Nx.nodes (G sg))).

Definition _check_edge_attributes (sg : t) (source target : Z) (attribute : string)
  : Outcome unit :=
  _ ← py_assert (bool_decide (attribute ∈ _edge_attrs));
  py_assert (Nx.has_edge (G sg) source target).

Definition gna (sg : t) (node_id : Z) (attribute : string) : Outcome Value :=
  _ ← _check_node_attributes sg node_id attribute;
  d ← getitem (Nx.node (G sg)) node_id;
  getitem d attribute.

Definition sna (node_id : Z) (attribute : string) (value : Value) : M unit :=
  sg ← get_self;
  _ ← lift (_check_node_attributes sg node_id attribute);
  d ← lift (getitem (Nx.node (G sg)) node_id);
  set_G (Nx.mkDiGraph (<[node_id := <[attribute := value]> d]> (Nx.node (G sg)))
                      (Nx.succ (G sg))).

Definition gea (sg : t) (source target : Z) (attribute : string) : Outcome Value :=
  _ ← _check_edge_attributes sg source target attribute;
  nbrs ← getitem (Nx.succ (G sg)) source;
  d ← getitem nbrs target;
  getitem d attribute.

Definition sea (source target : Z) (attribute : string) (value : Value) : M unit :=
  sg ← get_self;
  _ ← lift (_check_edge_attributes sg source target attribute);
  nbrs ← lift (getitem (Nx.succ (G sg)) source);
  d ← lift (getitem nbrs target);
  set_G (Nx.mkDiGraph (Nx.node (G sg))
           (<[source := <[target := <[attribute := value]> d]> nbrs]> (Nx.succ (G sg)))).

(** [data[i]] on a node's state vector.  [add_node] stores [data] as a
    one-dimensional array; indexing anything else is not followed further
    and is a [TypeError] here. *)
Definition item (data : Value) (i : nat) : Outcome R :=
  match data with
  | VVec l => match l !! i with
              | Some x => Ok x
              | None => Raise IndexError
              end
  | _ => Raise TypeError
  end.

(** The module-level [eud(data1, data2)] *)
Definition eud (data1 data2 : Value) : Outcome R :=
  x1 ← item data1 0; x2 ← item data2 0;
  y1 ← item data1 1; y2 ← item data2 1;
  Ok (sqrt ((x1 - x2) ^ 2 + (y1 - y2) ^ 2)).

(** [set(self.G.nodes()) - {nid}] *)
Definition serch_set (sg : t) (nid : Z) : gset Z :=
  list_to_set (Nx.nodes (G sg)) ∖ {[ nid ]}.

(** The result lists the neighbours in the order of the set's iteration;
    [elements] stands for it, and only membership is stated of it. *)

Definition find_neighbors_range (sg : t) (nid : Z) (distance : R)
  : Outcome (list Z) :=
  cn ← gna sg nid "data";
  py_filter (fun n => v ← gna sg n "data"; d ← eud v cn;
                      Ok (bool_decide (d <= distance)))
            (elements (serch_set sg nid)).

(** [o] is the order in which [serch_set] is iterated.  [distances] is
    keyed by the elements of [serch_set], each once; a [dict] keeps the
    order in which its keys were inserted (CPython 3.7 and later), so its
    items come in the order of the set. *)
Definition find_neighbors_k (o : Order) (sg : t) (nid : Z) (k : Z)
  : Outcome (list Z) :=
  let search := iter o (elements (serch_set sg nid)) in
  cn ← gna sg nid "data";
  distances ← for_each (fun n => v ← gna sg n "data"; d ← eud v cn; Ok (n, d))
                       search;
  let sorted_neighbors := sorted snd distances in
  let k_neighbors := slice_to sorted_neighbors k in
  Ok (k_neighbors.*1).

(** The closure [metric(a, b)] built by [search_path(source, target)] *)
Definition metric (sg : t) (source target : Z) (a b : Z) : Outcome Value :=
  if edge_exists sg source target then
    r ← gea sg source target "reward"; neg_one_times r
  else Ok (VInt 1000).

Section SearchPath.
  (** [networkx.astar_path(G, source, target, heuristic)] *)
Variable astar_path :
    Nx.DiGraph -> Z -> Z -> (Z -> Z -> Outcome Value) -> Outcome (list Z).

Definition search_path (sg : t) (source target : Z) : Outcome (list Z) :=
    astar_path (G sg) source target (metric sg source target).
End SearchPath.

Definition get_signal (sg : t) (name : string) : Outcome (list Value) :=
  _ ← py_assert (bool_decide
                   (name ∈ ["cost"; "policy"; "priority"; "V"; "Q"]%string));
  for_each (fun n => gna sg n name) (Nx.nodes (G sg)).

Definition clear : M unit := set_G Nx.empty.

Definition remove_node (node : Z) : M unit :=
  sg ← get_self;
  g ← lift (Nx.remove_node (G sg) node);
  set_G g.

Definition neighbors (sg : t) (nid : Z) : Outcome (list Z) :=
  Nx.neighbors (G sg) nid.

Definition find_neighbors_from_pose (sg : t) (loc : Value) (distance : R)
  : Outcome (list Z) :=
  py_filter (fun n => v ← gna sg n "data"; d ← eud v loc;
                      Ok (bool_decide (d <= distance)))
            (Nx.nodes (G sg)).

(** Graphs in which every node carries a state vector [data] with at
    least the two components [eud] reads. *)
Definition planar (sg : t) : Prop :=
  forall m d, Nx.node (G sg) !! m = Some d ->
              exists x y u, d !! "data"%string = Some (VVec (x :: y :: u)).

(** The graphs the class can hold: the empty graph of [__init__] and what
    the five mutating methods make of a graph it can hold. *)
Inductive reachable : t -> Prop :=
| reachable_init state_dim :
    reachable (mk Nx.empty state_dim)
| reachable_add_node h nid data cost priority Q V pi ntype :
    reachable (self h) ->
    reachable (self (add_node nid data cost priority Q V pi ntype h).2)
| reachable_add_edge h source target duration reward phi traj :
    reachable (self h) ->
    reachable (self (add_edge source target duration reward phi traj h).2)
| reachable_remove_edge h source target :
    reachable (self h) ->
    reachable (self (remove_edge source target h).2)
| reachable_sna h node_id attribute value :
    reachable (self h) ->
    reachable (self (sna node_id attribute value h).2)
| reachable_sea h source target attribute value :
    reachable (self h) ->
    reachable (self (sea source target attribute value h).2).

End StateGraph.

(* ================================================================== *)
(** ** numpy.random and the PolicyWalk loop

    The random source is a list of draws, one pair of naturals per turn of
    the loop: [choice] and [randint] reduce them to a legal result, so
    every list is a possible run of the generator.  The two
    [PolicyWalkProposal.__call__] bodies (birl/base.py and graph_birl.py)
    are the same loop and differ in the list handed to [choice].

    [np.array(loc)] takes its type from the entries of [loc]: floats give
    a float array ([loop]), integers an integer array ([loop_int]), into
    which [new_loc[i] += d] stores the sum with its fraction dropped. *)

Module PolicyWalk.

(** [numpy.random.choice(l)] *)
Definition choice (c : nat) (l : list R) : R := nth (c mod length l) l 0.

(** [numpy.random.randint(high)]: a value in [[0, high)] *)
Definition randint (k : nat) (high : Z) : Outcome nat :=
  if decide (high <= 0)%Z then Raise ValueError
  else Ok (Z.to_nat (Z.of_nat k mod high)).

Record Proposal : Type := mkProposal {
  dim : Z;
  delta : R;
  bounded : bool
}.

(** [while not changed: ...] then [return new_loc].  [None]: the draws ran
    out with [changed] still false. *)
Fixpoint loop (self : Proposal) (steps : list R) (draws : list (nat * nat))
    (new_loc : list R) : option (Outcome (list R)) :=
  match draws with
  | [] => None
  | (c, k) :: rest =>
      let d := choice c steps in
      match randint k (dim self) with
      | Raise e => Some (Raise e)
      | Ok i =>
          match new_loc !! i with
          | None => Some (Raise IndexError)
          | Some x =>
              if bounded self then
                if decide (-1 <= x + d <= 1)
                then Some (Ok (<[i := x + d]> new_loc))
                else loop self steps rest new_loc
              else Some (Ok (<[i := x + d]> new_loc))
          end
      end
  end.

Fixpoint loop_int (self : Proposal) (steps : list R) (draws : list (nat * nat))
    (new_loc : list Z) : option (Outcome (list Z)) :=
  match draws with
  | [] => None
  | (c, k) :: rest =>
      let d := choice c steps in
      match randint k (dim self) with
      | Raise e => Some (Raise e)
      | Ok i =>
          match new_loc !! i with
          | None => Some (Raise IndexError)
          | Some x =>
              if bounded self then
                if decide (-1 <= IZR x + d <= 1)
                then Some (Ok (<[i := trunc (IZR x + d)]> new_loc))
                else loop_int self steps rest new_loc
              else Some (Ok (<[i := trunc (IZR x + d)]> new_loc))
          end
      end
  end.

End PolicyWalk.

(* ================================================================== *)
(** ** sirl/algorithms/birl/base.py *)

Module Base.

(** [numpy.sum] of a one-dimensional array *)
Definition np_sum (v : list R) : R := foldr Rplus 0 v.

(** *** Reward priors.  A batch [r] is a one-dimensional array.  Division
    is the total division of [R] and [exp] the real exponential, so the
    model says nothing of numpy's [inf] and [nan] when a divisor is zero,
    be it by [sigma = 0] or by an [exp] that underflows to [0.0]. *)

Module UniformRewardPrior.
Definition __call__ (r : list R) : list R :=
    let rp := replicate (length r) 1 in
    let dist := map (fun x => x / np_sum rp) rp in
    dist.
Definition log_p (r : list R) : list R := map ln (__call__ r).
End UniformRewardPrior.

Module GaussianRewardPrior.
Definition __call__ (_sigma : R) (r : list R) : list R :=
    let rp := map (fun x => (exp ((- (x ^ 2)) / (2 * _sigma ^ 2)) / sqrt (2 * PI))
                            * _sigma) r in
    map (fun x => x / np_sum rp) rp.
Definition log_p (_sigma : R) (r : list R) : list R := map ln (__call__ _sigma r).
End GaussianRewardPrior.

Module LaplacianRewardPrior.
Definition __call__ (_sigma : R) (r : list R) : list R :=
    let rp := map (fun x => exp ((- Rabs x) / (2 * _sigma)) / (2 * _sigma)) r in
    map (fun x => x / np_sum rp) rp.
Definition log_p (_sigma : R) (r : list R) : list R := map ln (__call__ _sigma r).
End LaplacianRewardPrior.

(** *** PolicyWalk MCMC proposal: [choice([-self.delta, self.delta])],
    on a vector of floats ([__call__]) and on a vector of integers
    ([__call__int]) *)
Module PolicyWalkProposal.
Definition __call__ (self : PolicyWalk.Proposal) (draws : list (nat * nat))
      (loc : list R) : option (Outcome (list R)) :=
    PolicyWalk.loop self [- PolicyWalk.delta self; PolicyWalk.delta self] draws loc.

Definition __call__int (self : PolicyWalk.Proposal) (draws : list (nat * nat))
      (loc : list Z) : option (Outcome (list Z)) :=
    PolicyWalk.loop_int self [- PolicyWalk.delta self; PolicyWalk.delta self]
                        draws loc.
End PolicyWalkProposal.

(** *** GeneratingTrajectoryBIRL: quality of the expert trajectories *)
Module GeneratingTrajectoryBIRL.

  (** What the method reads of [self]: [self._rep.graph],
      [self._rep.mdp.gamma] and [self._demos]. *)
Record t : Type := mk {
    graph : StateGraph.t;
    gamma : R;
    _demos : list (list Z)
  }.

  (** [l[i]] on a Python list *)
Definition list_item {A} (l : list A) (i : Value) : Outcome A :=
    match i with
    | VInt z =>
        let j := if decide (0 <= z)%Z then z else (Z.of_nat (length l) + z)%Z in
        if decide (0 <= j)%Z then
          match l !! Z.to_nat j with
          | Some x => Ok x
          | None => Raise IndexError
          end
        else Raise IndexError
    | _ => Raise TypeError
    end.

Definition as_float (v : Value) : Outcome R :=
    match v with
    | VFloat x => Ok x
    | VInt z => Ok (IZR z)
    | _ => Raise TypeError
    end.

  (** One turn of [for n in traj], on the pair [(time, QE)]. *)
Definition visit (self : t) (gr : R) (reward : list R) (st : R * R) (n : Z)
    : Outcome (R * R) :=
    let '(time, QE) := st in
    actions ← StateGraph.out_edges (graph self) n;
    match actions with
    | _ :: _ =>
        pi ← StateGraph.gna (graph self) n "pi";
        e ← list_item actions pi;
        phi ← StateGraph.gea (graph self) e.1 e.2 "phi";
        r ← np_dot (VVec reward) phi ≫= as_float;
        let QE := QE + float_pow (gamma self) time * r in
        dur ← StateGraph.gea (graph self) e.1 e.2 "duration" ≫= as_float;
        Ok (time + dur, QE)
    | [] =>
        Ok (time, QE + float_pow (gamma self) time * gr)
    end.

Fixpoint walk (self : t) (gr : R) (reward : list R) (st : R * R) (traj : list Z)
    : Outcome (R * R) :=
    match traj with
    | [] => Ok st
    | n :: traj' => st' ← visit self gr reward st n; walk self gr reward st' traj'
    end.

Definition _expert_trajectory_quality (self : t) (reward : list R)
    : Outcome (list R) :=
    let gr := 100 in
    for_each (fun traj => st ← walk self gr reward (0, 0) traj; Ok st.2)
             (_demos self).

End GeneratingTrajectoryBIRL.

End Base.

(* ================================================================== *)
(** ** sirl/algorithms/graph_birl.py *)

Module GraphBirl.

(** *** Reward priors of this file: no normalisation is applied. *)

Module UniformRewardPrior.
Definition __call__ (r : list R) : list R := r.
Definition log_p (r : list R) : list R := map ln r.
End UniformRewardPrior.

Module GaussianRewardPrior.
Definition __call__ (_sigma : R) (r : list R) : list R :=
    map (fun x => (exp ((- (x ^ 2)) / (2 * _sigma ^ 2)) / sqrt (2 * PI)) * _sigma) r.
Definition log_p (_sigma : R) (r : list R) : list R := map ln (__call__ _sigma r).
End GaussianRewardPrior.

Module LaplacianRewardPrior.
Definition __call__ (_sigma : R) (r : list R) : list R :=
    map (fun x => exp ((- Rabs x) / (2 * _sigma)) / (2 * _sigma)) r.
Definition log_p (_sigma : R) (r : list R) : list R := map ln (__call__ _sigma r).
End LaplacianRewardPrior.

(** *** PolicyWalk MCMC proposal: [choice([-self.delta, 0, self.delta])],
    on a vector of floats ([__call__]) and on a vector of integers
    ([__call__int]) *)
Module PolicyWalkProposal.
Definition __call__ (self : PolicyWalk.Proposal) (draws : list (nat * nat))
      (loc : list R) : option (Outcome (list R)) :=
    PolicyWalk.loop self [- PolicyWalk.delta self; 0; PolicyWalk.delta self]
                    draws loc.

Definition __call__int (self : PolicyWalk.Proposal) (draws : list (nat * nat))
      (loc : list Z) : option (Outcome (list Z)) :=
    PolicyWalk.loop_int self [- PolicyWalk.delta self; 0; PolicyWalk.delta self]
                        draws loc.
End PolicyWalkProposal.

(** *** GBIRL and GBIRLPolicyWalk *)

Import StateGraph.

Abbreviation Trajs := (list (list Z)).

(** What [solve] reaches outside graph_birl.py and state_graph.py.  None of
    it is among the embedded sources, so it is taken as given:
    - [mixin_initial_reward]: the result of [self._initial_reward()] if the
      base class [ModelMixin] defines that method ([None] if it does not:
      graph_birl.py itself defines [initialize_reward] only);
    - [policy_attr]: the value of [self._mdp.graph.policy] if the graph
      object has that attribute ([None] if it has not: the [StateGraph]
      class of state_graph.py defines none);
    - [graph_policy_iteration]: the solver of [.mdp_solvers], which updates
      the graph in place;
    - [_find_best_policies]: the rollout of [self._mdp], giving the new
      value of [self._mdp._best_trajs]. *)
Record Collaborators : Type := mkCollaborators {
  mixin_initial_reward : option (Outcome Value);
  policy_attr : option Value;
  graph_policy_iteration : StateGraph.t -> Outcome StateGraph.t;
  _find_best_policies : StateGraph.t -> Outcome Trajs
}.

(** Fields set by [GBIRL.__init__] that [solve] reads. *)
Record GBIRL : Type := mkGBIRL {
  _demos : Trajs;
  _max_iter : Z
}.

Section Solver.
Variable env : Collaborators.
Variable self : GBIRL.

  (** [self._initial_reward()] *)
Definition _initial_reward : M Value :=
    match mixin_initial_reward env with
    | Some r => lift r
    | None => lift (Raise AttributeError)
    end.

  (** [GBIRLPolicyWalk.find_next_reward]: the body is [pass]. *)
Definition find_next_reward (e_trajs g_trajs : Trajs) : M Value :=
    mret VNone.

  (** [for e in self._mdp.graph.all_edges: ...] *)
Fixpoint refresh_rewards (reward : Value) (es : list (Z * Z)) : M unit :=
    match es with
    | [] => mret tt
    | e :: es' =>
        sg ← get_self;
        phi ← lift (gea sg e.1 e.2 "phi");
        r ← lift (np_dot phi reward);
        _ ← sea e.1 e.2 "reward" r;
        refresh_rewards reward es'
    end.

Definition _compute_policy (reward : Value) : M Value :=
    sg ← get_self;
    _ ← refresh_rewards reward (all_edges sg);
    sg ← get_self;
    sg' ← lift (graph_policy_iteration env sg);
    _ ← set_G (G sg');
    match policy_attr env with
    | Some policy => mret policy
    | None => lift (Raise AttributeError)
    end.

Definition _generate_trajestories (policy : Value) (size : Z) : M Trajs :=
    sg ← get_self;
    lift (_find_best_policies env sg).

  (** [for iteration in range(self._max_iter): ...] on the pair
      [(reward, g_trajs)] *)
Fixpoint iterate (n : nat) (e_trajs : Trajs) (st : Value * Trajs)
    : M (Value * Trajs) :=
    match n with
    | O => mret st
    | S n' =>
        reward ← find_next_reward e_trajs st.2;
        new_policy ← _compute_policy reward;
        g_trajs ← _generate_trajestories new_policy 10;
        iterate n' e_trajs (reward, g_trajs)
    end.

Definition solve : M Value :=
    let e_trajs := _demos self in
    reward ← _initial_reward;
    pi0 ← _compute_policy reward;
    g_trajs ← _generate_trajestories pi0 10;
    st ← iterate (Z.to_nat (_max_iter self)) e_trajs (reward, g_trajs);
    mret st.1.
End Solver.

(** What the loop has done after some edges: nothing but [reward]
    attributes has changed, and the edges done carry the dot product. *)
Definition refreshed (sg : StateGraph.t) (ws : list Warning) (w : list R)
    (done_ : list (Z * Z)) (h : Heap) : Prop :=
  warned h = ws /\
  Nx.node (G (self h)) = Nx.node (G sg) /\
  (forall u v, edge_exists (self h) u v = edge_exists sg u v) /\
  (forall u v a, a <> "reward"%string -> gea (self h) u v a = gea sg u v a) /\
  (forall u v phi, (u, v) ∈ done_ -> gea sg u v "phi" = Ok (VVec phi) ->
                   gea (self h) u v "reward" = Ok (VFloat (dot phi w))).

End GraphBirl.

(* ================================================================== *)
(** ** Graphs used as concrete inputs, built through the class's own
       methods from an empty graph *)

Module Fixtures.
Import StateGraph.

Definition build (state_dim : Z) (m : M unit) : StateGraph.t :=
  self (m (mkHeap (mk Nx.empty state_dim) [])).2.

Definition plain_node (nid : Z) (data : list R) : M unit :=
  add_node nid (VVec data) (VFloat 0) (VFloat 0) (VVec []) (VFloat 0) (VInt 0)
           (VStr "simple").

Definition plain_edge (source target : Z) (reward : R) : M unit :=
  add_edge source target 1 (VFloat reward) (VVec [1; 0]) (VMat [[0; 0]; [1; 1]]).

(** One node, no edge. *)
Definition one_node : StateGraph.t := build 2 (plain_node 0 [0; 0]).

(** The attribute dictionaries [add_node] and [add_edge] store. *)
Definition node_attrs (data : list R) : Nx.AttrDict :=
  <["data" := VVec data]> (<["cost" := VFloat 0]> (<["priority" := VFloat 0]>
  (<["Q" := VVec []]> (<["V" := VFloat 0]> (<["pi" := VInt 0]>
  (<["type" := VStr "simple"]> ∅)))))).

Definition edge_attrs (reward : R) : Nx.AttrDict :=
  <["duration" := VFloat 1]> (<["reward" := VFloat reward]>
  (<["phi" := VVec [1; 0]]> (<["traj" := VMat [[0; 0]; [1; 1]]]> ∅))).

(** Two nodes and the edge [0 -> 1] with reward [3]: the graph left by
    [plain_node 0 [0; 0]], [plain_node 1 [1; 0]], [plain_edge 0 1 3]. *)
Definition two_nodes : StateGraph.t :=
  mk (Nx.add_edge
        (Nx.add_node (Nx.add_node Nx.empty 0 (node_attrs [0; 0])) 1
                     (node_attrs [1; 0]))
        0 1 (edge_attrs 3)) 2.

(** Three nodes with three-dimensional states: seen from node [0], node
    [1] is one unit away along the first axis, node [2] five units away
    along the third. *)
Definition three_nodes : StateGraph.t :=
  build 3 (_ ← plain_node 0 [0; 0; 0]; _ ← plain_node 1 [1; 0; 0];
           plain_node 2 [0; 0; 5]).

(** A bounded proposal over two coordinates with step [1/2]. *)
Definition walker : PolicyWalk.Proposal := PolicyWalk.mkProposal 2 (1 / 2) true.

(** An evaluator over the one-node graph with the single expert
    trajectory [[0]] and discount [9/10]. *)
Definition expert : Base.GeneratingTrajectoryBIRL.t :=
  Base.GeneratingTrajectoryBIRL.mk one_node (9 / 10) [[0%Z]].

(** Collaborators of [GBIRL.solve].  In [bare] the base class brings no
    [_initial_reward] and the graph object no [policy], as the embedded
    sources have it; in [mixin_only] the base class brings
    [_initial_reward]; in [obliging] both are there.  The policy solver
    leaves the graph as it is and the rollout finds no trajectory. *)
Definition bare : GraphBirl.Collaborators :=
  GraphBirl.mkCollaborators None None (fun sg => Ok sg) (fun _ => Ok []).

Definition mixin_only : GraphBirl.Collaborators :=
  GraphBirl.mkCollaborators (Some (Ok (VVec [0; 0]))) None
                            (fun sg => Ok sg) (fun _ => Ok []).

Definition obliging : GraphBirl.Collaborators :=
  GraphBirl.mkCollaborators (Some (Ok (VVec [0; 0]))) (Some VNone)
                            (fun sg => Ok sg) (fun _ => Ok []).

(** A solver with one expert trajectory and [max_iter = 1]. *)
Definition one_pass : GraphBirl.GBIRL := GraphBirl.mkGBIRL [[0%Z]] 1.

(** Proposals used as inputs: an unbounded one, and a bounded one whose
    step is larger than the whole interval. *)
Definition free_walker : PolicyWalk.Proposal := PolicyWalk.mkProposal 1 (1 / 2) false.
Definition stuck_walker : PolicyWalk.Proposal := PolicyWalk.mkProposal 1 3 true.

(** A solver whose loop is not entered: [max_iter = 0]. *)
Definition no_pass : GraphBirl.GBIRL := GraphBirl.mkGBIRL [[0%Z]] 0.

(** Following the spec's words (C7): the Euclidean distance over the full
    [data] vectors. *)
Fixpoint sum_sq_diff (u v : list R) : R :=
  match u, v with
  | x :: u', y :: v' => (x - y) ^ 2 + sum_sq_diff u' v'
  | _, _ => 0
  end.

Definition euclid_full (u v : list R) : R := sqrt (sum_sq_diff u v).

End Fixtures.

(* ================================================================== *)
(** ** Facts about [sorted], [for_each] and [slice_to] *)

Module PyFacts.

Section Sorted.
Context {A : Type} (key : A -> R).

Lemma insert_by_Permutation x l : insert_by key x l ≡ₚ x :: l.
Proof.
    induction l as [|y l IH]; cbn; [done|].
    case_decide; [done|]. rewrite IH. apply Permutation_swap.
Qed.

Lemma sorted_Permutation l : sorted key l ≡ₚ l.
Proof.
    induction l as [|x l IH]; cbn; [done|].
    rewrite insert_by_Permutation. by rewrite IH.
Qed.

Lemma insert_by_StronglySorted x l :
    StronglySorted (fun a b => key a <= key b) l -> StronglySorted (fun a b => key a <= key b) (insert_by key x l).
Proof.
    induction 1 as [|y l Hs IH Hy]; cbn.
    - repeat constructor.
    - case_decide as Hxy.
      + constructor; [by constructor|]. constructor; [done|].
        eapply Forall_impl; [exact Hy|]. cbn. intros z Hz. lra.
      + constructor; [done|]. rewrite insert_by_Permutation.
        constructor; [|done]. lra.
Qed.

Lemma sorted_StronglySorted l : StronglySorted (fun a b => key a <= key b) (sorted key l).
Proof.
    induction l as [|x l IH]; cbn; [constructor|].
    by apply insert_by_StronglySorted.
Qed.

  (** Stability: the elements of one key keep their input order. *)
Lemma insert_by_filter d x l :
    filter (fun y => key y = d) (insert_by key x l)
    = filter (fun y => key y = d) (x :: l).
Proof.
    induction l as [|y l IH]; cbn; [done|].
    case_decide as Hxy; [done|].
    rewrite (filter_cons _ y (insert_by key x l)), IH.
    rewrite !filter_cons.
    destruct (decide (key y = d)), (decide (key x = d)); try done.
    exfalso. lra.
Qed.

Lemma sorted_stable d l :
    filter (fun y => key y = d) (sorted key l) = filter (fun y => key y = d) l.
Proof.
    induction l as [|x l IH]; cbn; [done|].
    rewrite insert_by_filter, !filter_cons. by rewrite IH.
Qed.
End Sorted.

Lemma for_each_inv {A B} (f : A -> Outcome B) l ys :
  for_each f l = Ok ys -> Forall2 (fun x y => f x = Ok y) l ys.
Proof.
  revert ys. induction l as [|x l IH]; intros ys; cbn.
  - intros [= <-]. constructor.
  - destruct (f x) as [y|] eqn:Hy; cbn; [|done].
    destruct (for_each f l) as [ys'|]; cbn; [|done].
    intros [= <-]. constructor; [done|]. by apply IH.
Qed.

Lemma slice_to_nonneg {A} (l : list A) k :
  (0 <= k)%Z -> slice_to l k = take (Z.to_nat k) l.
Proof. intros Hk. unfold slice_to. by rewrite decide_True. Qed.

End PyFacts.

(* ================================================================== *)
(** ** Facts about the state graph *)

Module StateGraphFacts.
Import StateGraph Fixtures PyFacts.

(** Unfolding one layer of the two monads. *)
Ltac m_simpl :=
  unfold mbind, mret, M_bind, M_ret, Outcome_bind, Outcome_ret,
         lift, warn, get_self, set_G in *; cbn in *.

(** Membership in a list of string literals, by evaluation. *)
Ltac str_mem := apply (bool_decide_unpack _); vm_compute; exact I.
Ltac str_cases H :=
  repeat (apply elem_of_cons in H as [->|H]); [..|by apply elem_of_nil in H].

(** The two-node fixture is what the class's methods build. *)
Lemma two_nodes_built :
  build 2 (_ ← plain_node 0 [0; 0]; _ ← plain_node 1 [1; 0]; plain_edge 0 1 3)
  = two_nodes.
Proof.
  unfold build, plain_node, plain_edge, add_node, add_edge. m_simpl.
  rewrite (bool_decide_eq_true_2 (0 <= 1)) by lra. vm_compute. reflexivity.
Qed.

(** *** No method creates a self-loop *)

Lemma has_edge_false g u v :
  Nx.has_edge g u v = false <->
  forall nbrs, Nx.succ g !! u = Some nbrs -> nbrs !! v = None.
Proof.
  unfold Nx.has_edge. destruct (Nx.succ g !! u) as [nbrs|]; [|done].
  rewrite bool_decide_eq_false, <- eq_None_not_Some. split.
  - by intros Hn ? [= <-].
  - intros Hn. by apply Hn.
Qed.

Lemma touch_succ g n m :
  Nx.succ (Nx.touch g n) !! m = Some ∅ \/
  Nx.succ (Nx.touch g n) !! m = Nx.succ g !! m.
Proof.
  unfold Nx.touch. destruct (Nx.succ g !! n) eqn:E; [by right|]. cbn.
  destruct (decide (n = m)) as [->|Hne].
  - left. apply lookup_insert_eq.
  - right. by apply lookup_insert_ne.
Qed.

Lemma nx_add_node_no_self_loop g n attrs m :
  Nx.has_edge g m m = false -> Nx.has_edge (Nx.add_node g n attrs) m m = false.
Proof.
  rewrite !has_edge_false. intros Hg nbrs. unfold Nx.add_node.
  destruct (Nx.succ g !! n) eqn:E; cbn; [apply Hg|].
  destruct (decide (n = m)) as [->|Hne].
  - rewrite lookup_insert_eq. by intros [= <-].
  - rewrite lookup_insert_ne by done. apply Hg.
Qed.

Lemma nx_add_edge_no_self_loop g u v attrs m :
  u <> v -> Nx.has_edge g m m = false ->
  Nx.has_edge (Nx.add_edge g u v attrs) m m = false.
Proof.
  intros Huv. rewrite !has_edge_false. intros Hg nbrs. unfold Nx.add_edge. cbn.
  assert (forall k nb, Nx.succ (Nx.touch (Nx.touch g u) v) !! k = Some nb ->
                       k = m -> nb !! m = None) as Hg1.
  { intros k nb Hk ->.
    destruct (touch_succ (Nx.touch g u) v m) as [H|H]; rewrite H in Hk;
      [by injection Hk as <-|].
    destruct (touch_succ g u m) as [H'|H']; rewrite H' in Hk;
      [by injection Hk as <-|]. by apply Hg. }
  destruct (decide (u = m)) as [->|Hne].
  - rewrite lookup_insert_eq. intros [= <-]. rewrite lookup_insert_ne by done.
    destruct (Nx.succ (Nx.touch (Nx.touch g m) v) !! m) as [nb|] eqn:E; cbn;
      [by eapply Hg1|done].
  - rewrite lookup_insert_ne by done. intros Hk. by eapply Hg1.
Qed.

Lemma reachable_no_self_loop sg : reachable sg -> forall m, Nx.has_edge (G sg) m m = false.
Proof.
  induction 1 as [sd|h nid data cost priority Q V pi ntype _ IH
                 |h source target duration reward phi traj _ IH
                 |h source target _ IH
                 |h node_id attribute value _ IH
                 |h source target attribute value _ IH]; intros m.
  - reflexivity.
  - destruct h as [sg ws]. unfold add_node. m_simpl.
    destruct (py_len data) as [n|]; cbn; [|apply IH].
    destruct (bool_decide (n = _state_dim sg)); cbn; [|apply IH].
    destruct (Nx.has_node (G sg) nid); cbn; [apply IH|].
    by apply nx_add_node_no_self_loop.
  - destruct h as [sg ws]. unfold add_edge. m_simpl.
    destruct (bool_decide (0 <= duration)); cbn; [|apply IH].
    destruct (bool_decide (ndim traj = 2%Z)); cbn; [|apply IH].
    destruct (decide (source = target)); cbn; [apply IH|].
    destruct (Nx.has_edge (G sg) source target); cbn; [apply IH|].
    by apply nx_add_edge_no_self_loop.
  - destruct h as [sg ws]. unfold remove_edge.
    assert (forall ws',
              Nx.has_edge
                (G (self ((sg0 ← get_self;
                           g ← lift (Nx.remove_edge (G sg0) source target);
                           set_G g) (mkHeap sg ws')).2)) m m = false) as Hrest.
    { intros ws'. m_simpl. unfold Nx.remove_edge.
      destruct (Nx.succ (G sg) !! source) as [nbrs|] eqn:Hs; cbn; [|apply IH].
      destruct (nbrs !! target) eqn:Ht; cbn; [|apply IH].
      apply has_edge_false. cbn. intros nb.
      destruct (decide (source = m)) as [->|Hne].
      - rewrite lookup_insert_eq. intros [= <-].
        destruct (decide (target = m)) as [->|Hne'].
        + apply lookup_delete_eq.
        + rewrite lookup_delete_ne by done.
          specialize (IH m). rewrite has_edge_false in IH. by apply IH.
      - rewrite lookup_insert_ne by done.
        specialize (IH m). rewrite has_edge_false in IH. apply IH. }
    destruct (decide (source = target)); m_simpl; apply Hrest.
  - destruct h as [sg ws]. unfold sna. m_simpl.
    destruct (_check_node_attributes sg node_id attribute); cbn; [|apply IH].
    destruct (getitem (Nx.node (G sg)) node_id); cbn; apply IH.
  - destruct h as [sg ws]. unfold sea. m_simpl.
    unfold _check_edge_attributes. m_simpl.
    destruct (bool_decide (attribute ∈ _edge_attrs)); cbn; [|apply IH].
    destruct (Nx.has_edge (G sg) source target) eqn:He; cbn; [|apply IH].
    destruct (getitem (Nx.succ (G sg)) source) as [nbrs|] eqn:Hs; cbn; [|apply IH].
    destruct (getitem nbrs target) as [d|] eqn:Ht; cbn; [|apply IH].
    apply has_edge_false. cbn. intros nb.
    unfold getitem in Hs, Ht.
    destruct (Nx.succ (G sg) !! source) as [nbrs'|] eqn:Hs'; [|done].
    injection Hs as ->.
    destruct (nbrs !! target) as [d'|] eqn:Ht'; [|done].
    specialize (IH m). rewrite has_edge_false in IH.
    destruct (decide (source = m)) as [->|Hne].
    + rewrite lookup_insert_eq. intros [= <-].
      destruct (decide (target = m)) as [->|Hne'].
      * specialize (IH _ Hs'). congruence.
      * rewrite lookup_insert_ne by done. by apply IH.
    + rewrite lookup_insert_ne by done. apply IH.
Qed.

(** *** [remove_edge] *)

(** Removing an edge that is not there warns first when the end points
    coincide, and then fails in networkx; the graph is as before. *)
Lemma remove_edge_absent h source target :
  Nx.has_edge (G (self h)) source target = false ->
  remove_edge source target h =
    (Raise NetworkXError,
     mkHeap (self h)
            (warned h ++ if decide (source = target)
                         then [SameNodes source target] else [])).
Proof.
  intros Hno. destruct h as [[g sd] ws]. simpl in *.
  unfold remove_edge, Nx.has_edge in *.
  assert (Nx.remove_edge g source target = Raise NetworkXError) as Hrm.
  { unfold Nx.remove_edge. destruct (Nx.succ g !! source) as [nbrs|]; [|done].
    destruct (nbrs !! target) eqn:E; [|done].
    apply bool_decide_eq_false in Hno. destruct Hno. by eexists. }
  destruct (decide (source = target)); m_simpl; rewrite Hrm.
  - done.
  - by rewrite app_nil_r.
Qed.

(** Removing an edge that is there deletes it, self-loop or not. *)
Lemma remove_edge_present h source target nbrs attrs :
  Nx.succ (G (self h)) !! source = Some nbrs ->
  nbrs !! target = Some attrs ->
  (remove_edge source target h).1 = Ok tt /\
  Nx.has_edge (G (self (remove_edge source target h).2)) source target = false.
Proof.
  intros Hs Ht. destruct h as [[g sd] ws]. simpl in *.
  unfold remove_edge.
  destruct (decide (source = target)); m_simpl; unfold Nx.remove_edge;
    rewrite Hs, Ht; cbn; (split; [done|]);
    unfold Nx.has_edge; cbn; rewrite lookup_insert_eq;
    apply bool_decide_eq_false; rewrite lookup_delete_eq; by intros [? ?].
Qed.

(** Whatever the graph, [remove_edge(n, n)] is not a silent no-op: either
    it raises, or a self-loop that was there is gone. *)
Lemma remove_edge_self_loop_not_noop h n :
  (remove_edge n n h).1 = Raise NetworkXError \/
  (Nx.has_edge (G (self h)) n n = true /\
   Nx.has_edge (G (self (remove_edge n n h).2)) n n = false).
Proof.
  destruct (Nx.has_edge (G (self h)) n n) eqn:He.
  - right. split; [done|]. unfold Nx.has_edge in He.
    destruct (Nx.succ (G (self h)) !! n) as [nbrs|] eqn:Hs; [|done].
    apply bool_decide_eq_true in He as [attrs Ha].
    by destruct (remove_edge_present h n n nbrs attrs Hs Ha).
  - left. by rewrite remove_edge_absent.
Qed.

(** In every graph the class can hold, [remove_edge(n, n)] warns and then
    raises, leaving the graph as it was. *)
Lemma remove_edge_self_loop_always_raises sg ws n :
  reachable sg ->
  remove_edge n n (mkHeap sg ws)
  = (Raise NetworkXError, mkHeap sg (ws ++ [SameNodes n n])).
Proof.
  intros Hsg. rewrite remove_edge_absent by (by apply reachable_no_self_loop).
  cbn. by rewrite decide_True.
Qed.

(** C4 (the code at the failing input): on the graph with the single node
    [0] and no edge, [remove_edge(0, 0)] issues the warning and then raises
    [NetworkXError] instead of continuing. *)
Example remove_edge_self_loop_raises :
  remove_edge 0 0 (mkHeap one_node []) =
    (Raise NetworkXError, mkHeap one_node [SameNodes 0 0]).
Proof. vm_compute. reflexivity. Qed.

(** *** [add_edge] *)

Lemma add_edge_conflict_keeps_graph h source target duration reward phi traj :
  source = target \/ edge_exists (self h) source target = true ->
  self (add_edge source target duration reward phi traj h).2 = self h.
Proof.
  intros Hc. destruct h as [sg ws]. unfold add_edge. m_simpl.
  destruct (bool_decide (0 <= duration)); cbn; [|done].
  destruct (bool_decide (ndim traj = 2%Z)); cbn; [|done].
  destruct (decide (source = target)); cbn; [done|].
  destruct Hc as [?|He]; [done|]. unfold edge_exists in He. by rewrite He.
Qed.

Lemma add_edge_conflict_warns h source target duration reward phi traj :
  source = target \/ edge_exists (self h) source target = true ->
  0 <= duration -> ndim traj = 2%Z ->
  add_edge source target duration reward phi traj h =
    (Ok tt, mkHeap (self h)
              (warned h ++ [if decide (source = target)
                            then SameNodes source target
                            else EdgeExists source target])).
Proof.
  intros Hc Hd Ht. destruct h as [sg ws]. unfold add_edge. m_simpl.
  rewrite bool_decide_eq_true_2 by done. cbn.
  rewrite bool_decide_eq_true_2 by done. cbn.
  destruct (decide (source = target)); cbn; [done|].
  destruct Hc as [?|He]; [done|]. unfold edge_exists in He. by rewrite He.
Qed.

(** C8 (amended): a call of [add_edge] with [source == target], or for a
    pair that already has an edge, never changes the graph (edges, edge
    count and attributes are those of before); when its arguments pass the
    two validation asserts ([duration >= 0], [traj] two-dimensional) it
    returns normally and has issued exactly one warning. *)
Theorem add_edge_conflict_is_noop h source target duration reward phi traj :
  source = target \/ edge_exists (self h) source target = true ->
  self (add_edge source target duration reward phi traj h).2 = self h /\
  (0 <= duration -> ndim traj = 2%Z ->
   exists w, add_edge source target duration reward phi traj h =
             (Ok tt, mkHeap (self h) (warned h ++ [w]))).
Proof.
  intros Hc. split.
  - by apply add_edge_conflict_keeps_graph.
  - intros Hd Ht. eexists. by apply add_edge_conflict_warns.
Qed.

Lemma add_edge_conflict_is_noop_witness :
  (0 = 0 \/ edge_exists (self (mkHeap two_nodes [])) 0 0 = true) /\
  0 <= 1 /\ ndim (VMat [[0; 0]; [1; 1]]) = 2%Z /\
  self (add_edge 0 0 1 (VFloat 0) (VVec [1; 0]) (VMat [[0; 0]; [1; 1]])
          (mkHeap two_nodes [])).2 = two_nodes /\
  exists w, add_edge 0 0 1 (VFloat 0) (VVec [1; 0]) (VMat [[0; 0]; [1; 1]])
              (mkHeap two_nodes []) = (Ok tt, mkHeap two_nodes ([] ++ [w])).
Proof.
  destruct (add_edge_conflict_is_noop (mkHeap two_nodes []) 0 0 1 (VFloat 0)
              (VVec [1; 0]) (VMat [[0; 0]; [1; 1]]) (or_introl eq_refl))
    as [Hsame Hwarn].
  assert (0 <= 1) as H01 by lra.
  assert (ndim (VMat [[0; 0]; [1; 1]]) = 2%Z) as Hnd by reflexivity.
  split; [by left|]. split; [exact H01|]. split; [exact Hnd|].
  split; [exact Hsame|]. exact (Hwarn H01 Hnd).
Defined.

(** C8 (counterexample): with a negative duration the self-loop call raises
    [AssertionError] before any warning is issued. *)
Example add_edge_self_loop_bad_duration :
  add_edge 0 0 (-1) (VFloat 0) (VVec [1; 0]) (VMat [[0; 0]; [1; 1]])
           (mkHeap one_node []) = (Raise AssertionError, mkHeap one_node []) /\
  ~ exists w h', add_edge 0 0 (-1) (VFloat 0) (VVec [1; 0]) (VMat [[0; 0]; [1; 1]])
                   (mkHeap one_node []) = (Ok tt, h') /\ warned h' = [w].
Proof.
  assert (add_edge 0 0 (-1) (VFloat 0) (VVec [1; 0]) (VMat [[0; 0]; [1; 1]])
            (mkHeap one_node []) = (Raise AssertionError, mkHeap one_node [])) as E.
  { unfold add_edge. m_simpl. rewrite bool_decide_eq_false_2 by lra. reflexivity. }
  split; [exact E|]. intros (w & h' & H & _). rewrite E in H. discriminate.
Qed.

(** *** [get_signal] *)

Lemma elem_of_nodes (g : Nx.DiGraph) (n : Z) :
  n ∈ Nx.nodes g <-> is_Some (Nx.node g !! n).
Proof.
  unfold Nx.nodes. rewrite list_elem_of_fmap. split.
  - intros ([n' d] & -> & Hin). apply elem_of_map_to_list in Hin. by eexists.
  - intros [d Hd]. exists (n, d). split; [done|]. by apply elem_of_map_to_list.
Qed.

Lemma gna_present sg n name d v :
  name ∈ _node_attrs -> Nx.node (G sg) !! n = Some d -> d !! name = Some v ->
  gna sg n name = Ok v.
Proof.
  intros Hname Hd Hv. unfold gna, _check_node_attributes, getitem.
  rewrite (bool_decide_eq_true_2 (name ∈ _node_attrs)) by done. cbn.
  rewrite (bool_decide_eq_true_2 (n ∈ Nx.nodes (G sg)))
    by (apply elem_of_nodes; by eexists).
  cbn. rewrite Hd. cbn. by rewrite Hv.
Qed.

Lemma gna_unknown_attribute sg n name :
  name ∉ _node_attrs -> gna sg n name = Raise AssertionError.
Proof.
  intros Hname. unfold gna, _check_node_attributes.
  rewrite (bool_decide_eq_false_2 (name ∈ _node_attrs)) by done. reflexivity.
Qed.

Lemma for_each_Forall2 {A B} (f : A -> Outcome B) (P : A -> B -> Prop) l :
  (forall x, x ∈ l -> exists y, f x = Ok y /\ P x y) ->
  exists ys, for_each f l = Ok ys /\ Forall2 P l ys.
Proof.
  induction l as [|x l IH]; intros Hf; cbn.
  - exists []. split; [done|constructor].
  - destruct (Hf x) as (y & Hy & HP); [left|].
    destruct IH as (ys & Hys & HF); [intros; apply Hf; by right|].
    exists (y :: ys). rewrite Hy, Hys. split; [done|by constructor].
Qed.

(** For the four names that are node attributes the signal has one value
    per node, in the order of [self.nodes]. *)
Lemma get_signal_attribute sg name :
  name ∈ ["cost"; "priority"; "V"; "Q"]%string ->
  (forall n d, Nx.node (G sg) !! n = Some d -> is_Some (d !! name)) ->
  exists vs, get_signal sg name = Ok vs /\
    Forall2 (fun n v => exists d, Nx.node (G sg) !! n = Some d /\ d !! name = Some v)
            (Nx.nodes (G sg)) vs.
Proof.
  intros Hname Hattr. unfold get_signal.
  rewrite bool_decide_eq_true_2 by (str_cases Hname; str_mem). cbn.
  apply for_each_Forall2. intros n Hn.
  apply elem_of_nodes in Hn as [d Hd]. destruct (Hattr n d Hd) as [v Hv].
  exists v. split; [|by eauto].
  eapply gna_present; [|done..]. unfold _node_attrs. str_cases Hname; str_mem.
Qed.

(** For [policy] the allow-list of [get_signal] lets the name through and
    the allow-list of [gna] stops it at the first node. *)
Lemma get_signal_policy sg :
  Nx.nodes (G sg) <> [] -> get_signal sg "policy" = Raise AssertionError.
Proof.
  intros Hne. unfold get_signal.
  rewrite bool_decide_eq_true_2 by str_mem. cbn.
  destruct (Nx.nodes (G sg)) as [|n l]; [done|]. cbn.
  rewrite gna_unknown_attribute; [done|].
  intros H. apply (bool_decide_pack _) in H. vm_compute in H. exact H.
Qed.

(** C5 (the code at the failing input): on the one-node graph, whose node
    was added by [add_node] with all its attributes, [get_signal] returns
    the [cost] signal and raises [AssertionError] for [policy]. *)
Example get_signal_policy_raises :
  get_signal one_node "cost" = Ok [VFloat 0] /\
  get_signal one_node "policy" = Raise AssertionError.
Proof. split; vm_compute; reflexivity. Qed.

(** *** [find_neighbors_range] *)

Lemma py_filter_elem_of {A} (p : A -> Outcome bool) l r x :
  py_filter p l = Ok r -> x ∈ r -> x ∈ l.
Proof.
  revert r. induction l as [|y l IH]; intros r; cbn.
  - intros [= <-]. done.
  - destruct (p y) as [b|]; cbn; [|done].
    destruct (py_filter p l) as [ys|]; cbn; [|done].
    intros [= <-] Hx. destruct b.
    + apply elem_of_cons in Hx as [->|Hx]; [left|right; by apply (IH ys)].
    + right. by apply (IH ys).
Qed.

(** The queried node is taken out of the search set before filtering, so
    it is never in the result. *)
Lemma find_neighbors_range_excludes_self sg nid distance res :
  find_neighbors_range sg nid distance = Ok res -> nid ∉ res.
Proof.
  unfold find_neighbors_range. destruct (gna sg nid "data") as [cn|]; cbn; [|done].
  intros Hf Hin. eapply py_filter_elem_of in Hin; [|done].
  apply elem_of_elements in Hin. unfold serch_set in Hin.
  apply elem_of_difference in Hin as [_ Hn]. apply Hn. by apply elem_of_singleton.
Qed.

(** C6 (the code at the failing input): on the one-node graph the range
    query from node [0] with radius [1] returns the empty list: the node
    itself is left out. *)
Example find_neighbors_range_leaves_self_out :
  find_neighbors_range one_node 0 1 = Ok [] /\
  (0%Z ∈ Nx.nodes (G one_node)) /\ 0 <= 1.
Proof.
  split; [vm_compute; reflexivity|]. split; [|lra].
  apply elem_of_nodes. vm_compute. by eexists.
Qed.

(** *** [find_neighbors_k] *)

Lemma eud_inv v cn d :
  eud v cn = Ok d ->
  exists x1 y1 u x2 y2 w,
    v = VVec (x1 :: y1 :: u) /\ cn = VVec (x2 :: y2 :: w) /\
    d = sqrt ((x1 - x2) ^ 2 + (y1 - y2) ^ 2).
Proof.
  unfold eud, item.
  destruct v as [| | | |[|x1 [|y1 u]]|]; cbn; try done;
    destruct cn as [| | | |[|x2 [|y2 w]]|]; cbn; try done.
  intros [= <-]. by exists x1, y1, u, x2, y2, w.
Qed.

Lemma gna_Ok_node sg n name v : gna sg n name = Ok v -> n ∈ Nx.nodes (G sg).
Proof.
  unfold gna, _check_node_attributes.
  destruct (bool_decide (name ∈ _node_attrs)); cbn; [|done].
  destruct (bool_decide (n ∈ Nx.nodes (G sg))) eqn:E; cbn; [|done].
  intros _. by apply bool_decide_eq_true in E.
Qed.

Lemma NoDup_nodes g : NoDup (Nx.nodes g).
Proof. apply NoDup_fst_map_to_list. Qed.

Lemma elem_of_serch_set sg nid n :
  n ∈ elements (serch_set sg nid) <-> n ∈ Nx.nodes (G sg) /\ n <> nid.
Proof.
  rewrite elem_of_elements. unfold serch_set.
  rewrite elem_of_difference, elem_of_list_to_set, elem_of_singleton. done.
Qed.

Lemma length_serch_set sg nid :
  nid ∈ Nx.nodes (G sg) ->
  S (length (elements (serch_set sg nid))) = length (Nx.nodes (G sg)).
Proof.
  intros Hin. unfold serch_set.
  change (length (elements ?X)) with (size X).
  rewrite size_difference by (apply singleton_subseteq_l; by apply elem_of_list_to_set).
  rewrite size_singleton, size_list_to_set by apply NoDup_nodes.
  apply list_elem_of_lookup in Hin as [i Hi]. apply lookup_lt_Some in Hi. lia.
Qed.

(** Nodes whose [data] is a vector of at least two components. *)
Lemma gna_data_present sg n :
  (forall m d, Nx.node (G sg) !! m = Some d ->
               exists x y u, d !! "data"%string = Some (VVec (x :: y :: u))) ->
  n ∈ Nx.nodes (G sg) ->
  exists x y u, gna sg n "data" = Ok (VVec (x :: y :: u)).
Proof.
  intros Hdata Hn. apply elem_of_nodes in Hn as [d Hd].
  destruct (Hdata n d Hd) as (x & y & u & Hv). exists x, y, u.
  eapply gna_present; [|done..]. unfold _node_attrs. str_mem.
Qed.

Lemma elem_of_search o sg nid n :
  n ∈ iter o (elements (serch_set sg nid)) <-> n ∈ Nx.nodes (G sg) /\ n <> nid.
Proof. by rewrite (iter_Permutation o), elem_of_serch_set. Qed.

Lemma NoDup_search o sg nid : NoDup (iter o (elements (serch_set sg nid))).
Proof. rewrite (iter_Permutation o). apply NoDup_elements. Qed.

Lemma length_search o sg nid :
  nid ∈ Nx.nodes (G sg) ->
  S (length (iter o (elements (serch_set sg nid)))) = length (Nx.nodes (G sg)).
Proof. intros Hin. rewrite (iter_Permutation o). by apply length_serch_set. Qed.

Lemma find_neighbors_k_returns o sg nid k :
  (forall m d, Nx.node (G sg) !! m = Some d ->
               exists x y u, d !! "data"%string = Some (VVec (x :: y :: u))) ->
  nid ∈ Nx.nodes (G sg) ->
  exists res, find_neighbors_k o sg nid k = Ok res.
Proof.
  intros Hdata Hnid. unfold find_neighbors_k.
  destruct (gna_data_present sg nid Hdata Hnid) as (x2 & y2 & w & ->). cbn.
  destruct (for_each_Forall2
              (fun n => v ← gna sg n "data"; d ← eud v (VVec (x2 :: y2 :: w));
                        Ok (n, d))
              (fun _ _ => True) (iter o (elements (serch_set sg nid))))
    as (items & -> & _); [|by eexists].
  intros n Hn. apply elem_of_search in Hn as [Hn _].
  destruct (gna_data_present sg n Hdata Hn) as (x1 & y1 & u & ->).
  by eexists.
Qed.

Lemma find_neighbors_k_inv o sg nid k res :
  (0 <= k)%Z ->
  find_neighbors_k o sg nid k = Ok res ->
  exists ranked : list (Z * R),
    res = take (Z.to_nat k) ranked.*1 /\
    ((Z.of_nat (length (Nx.nodes (G sg))) - 1 <= k)%Z -> res = ranked.*1) /\
    NoDup ranked.*1 /\
    (forall n, n ∈ ranked.*1 <-> n ∈ Nx.nodes (G sg) /\ n <> nid) /\
    (forall n d, (n, d) ∈ ranked ->
       exists x1 y1 u x2 y2 w,
         gna sg n "data" = Ok (VVec (x1 :: y1 :: u)) /\
         gna sg nid "data" = Ok (VVec (x2 :: y2 :: w)) /\
         d = sqrt ((x1 - x2) ^ 2 + (y1 - y2) ^ 2)) /\
    StronglySorted (fun a b => a.2 <= b.2) ranked /\
    (forall d, (filter (fun x => x.2 = d) ranked).*1
               `sublist_of` iter o (elements (serch_set sg nid))).
Proof.
  intros Hk. unfold find_neighbors_k.
  destruct (gna sg nid "data") as [cn|] eqn:Hcn; cbn; [|done].
  destruct (for_each _ (iter o (elements (serch_set sg nid))))
    as [items|] eqn:Hitems; cbn; [|done].
  intros [= <-].
  apply for_each_inv in Hitems.
  (* the keys of [items] are the search set, in its order *)
  assert (items.*1 = iter o (elements (serch_set sg nid))) as Hkeys.
  { clear -Hitems. induction Hitems as [|n [n' d] l l' Hn _ IH]; cbn; [done|].
    f_equal; [|done].
    destruct (gna sg n "data"); cbn in Hn; [|done].
    destruct (eud _ cn); cbn in Hn; [|done]. by injection Hn as <- _. }
  assert (forall n d, (n, d) ∈ items ->
            exists v, gna sg n "data" = Ok v /\ eud v cn = Ok d) as Hdist.
  { clear -Hitems. induction Hitems as [|n [n' d'] l l' Hn _ IH]; intros m d Hin.
    - by apply elem_of_nil in Hin.
    - apply elem_of_cons in Hin as [Heq|Hin]; [|by apply IH].
      destruct (gna sg n "data") as [v|] eqn:Hv; cbn in Hn; [|done].
      destruct (eud v cn) as [e|] eqn:He; cbn in Hn; [|done].
      simplify_eq. by exists v. }
  pose proof (sorted_Permutation snd items) as Hsort.
  exists (sorted snd items).
  assert ((sorted snd items).*1 ≡ₚ iter o (elements (serch_set sg nid)))
    as Hranked by (by rewrite Hsort, Hkeys).
  split; [by rewrite slice_to_nonneg, fmap_take|].
  split.
  { intros Hbig. rewrite slice_to_nonneg, fmap_take by done.
    apply take_ge. rewrite Hranked.
    pose proof (length_search o sg nid (gna_Ok_node _ _ _ _ Hcn)). lia. }
  split; [rewrite Hranked; apply NoDup_search|].
  split; [intros n; rewrite Hranked; apply elem_of_search|].
  split.
  { intros n d Hin. rewrite Hsort in Hin.
    destruct (Hdist n d Hin) as (v & Hv & Hd).
    destruct (eud_inv _ _ _ Hd) as (x1 & y1 & u & x2 & y2 & w & -> & -> & ->).
    by exists x1, y1, u, x2, y2, w. }
  split; [apply (sorted_StronglySorted snd)|].
  intros d. rewrite sorted_stable, <- Hkeys.
  apply fmap_sublist, sublist_filter.
Qed.

(** C7 (amended): in a graph whose nodes all carry a [data] vector of at
    least two components, for a node [nid] of the graph and [k >= 0],
    whatever the order [o] in which the set of the other nodes is
    iterated, [find_neighbors_k] returns; it ranks all other nodes, each
    once, by the planar distance [eud] (the square root of the squared
    differences of the first two components of [data]) in ascending order
    and returns the identifiers of the first [k]; nodes at equal distance
    stay in the order in which they were iterated; for
    [k >= graph size - 1] all other nodes are returned. *)
Theorem find_neighbors_k_ranking o sg nid k :
  (forall m d, Nx.node (G sg) !! m = Some d ->
               exists x y u, d !! "data"%string = Some (VVec (x :: y :: u))) ->
  nid ∈ Nx.nodes (G sg) ->
  (0 <= k)%Z ->
  exists (res : list Z) (ranked : list (Z * R)),
    find_neighbors_k o sg nid k = Ok res /\
    res = take (Z.to_nat k) ranked.*1 /\
    ((Z.of_nat (length (Nx.nodes (G sg))) - 1 <= k)%Z -> res = ranked.*1) /\
    NoDup ranked.*1 /\
    (forall n, n ∈ ranked.*1 <-> n ∈ Nx.nodes (G sg) /\ n <> nid) /\
    (forall n d, (n, d) ∈ ranked ->
       exists x1 y1 u x2 y2 w,
         gna sg n "data" = Ok (VVec (x1 :: y1 :: u)) /\
         gna sg nid "data" = Ok (VVec (x2 :: y2 :: w)) /\
         d = sqrt ((x1 - x2) ^ 2 + (y1 - y2) ^ 2)) /\
    StronglySorted (fun a b => a.2 <= b.2) ranked /\
    (forall d, (filter (fun x => x.2 = d) ranked).*1
               `sublist_of` iter o (elements (serch_set sg nid))).
Proof.
  intros Hdata Hnid Hk.
  destruct (find_neighbors_k_returns o sg nid k Hdata Hnid) as [res Hres].
  destruct (find_neighbors_k_inv o sg nid k res Hk Hres) as (ranked & Hranked).
  by exists res, ranked.
Qed.

(** On the three-node fixture the nearest neighbour of node [0] is
    reported to be node [2]. *)
Lemma three_nodes_nearest : find_neighbors_k ascending three_nodes 0 1 = Ok [2%Z].
Proof.
  unfold find_neighbors_k.
  replace (gna three_nodes 0 "data") with (Ok (VVec [0; 0; 0]))
    by (vm_compute; reflexivity).
  replace (iter ascending (elements (serch_set three_nodes 0))) with [1%Z; 2%Z]
    by (vm_compute; reflexivity).
  cbn [mbind Outcome_bind for_each].
  replace (gna three_nodes 2 "data") with (Ok (VVec [0; 0; 5]))
    by (vm_compute; reflexivity).
  replace (gna three_nodes 1 "data") with (Ok (VVec [1; 0; 0]))
    by (vm_compute; reflexivity).
  unfold eud, item. cbn.
  set (d1 := sqrt _). set (d2 := sqrt _).
  assert (d2 = 0) as Hd2.
  { unfold d2. transitivity (sqrt 0); [f_equal; ring|apply sqrt_0]. }
  assert (d1 = 1) as Hd1.
  { unfold d1. transitivity (sqrt 1); [f_equal; ring|apply sqrt_1]. }
  clearbody d1 d2.
  cbn [sorted insert_by snd].
  rewrite decide_False by lra. reflexivity.
Qed.

Lemma three_nodes_have_data m d :
  Nx.node (G three_nodes) !! m = Some d ->
  exists x y u, d !! "data"%string = Some (VVec (x :: y :: u)).
Proof.
  intros Hd.
  assert (m ∈ [2%Z; 1%Z; 0%Z]) as Hm.
  { change [2%Z; 1%Z; 0%Z] with (Nx.nodes (G three_nodes)).
    apply elem_of_nodes. by eexists. }
  repeat (apply elem_of_cons in Hm as [->|Hm]);
    [..|by apply elem_of_nil in Hm];
    vm_compute in Hd; injection Hd as <-; by eexists _, _, _.
Qed.

Lemma find_neighbors_k_ranking_witness :
  (0%Z ∈ Nx.nodes (G three_nodes)) /\ (0 <= 1)%Z /\
  exists (res : list Z) (ranked : list (Z * R)),
    find_neighbors_k ascending three_nodes 0 1 = Ok res /\
    res = take 1 ranked.*1 /\ NoDup ranked.*1 /\
    StronglySorted (fun a b => a.2 <= b.2) ranked /\
    (forall d, (filter (fun x => x.2 = d) ranked).*1
               `sublist_of` iter ascending (elements (serch_set three_nodes 0))).
Proof.
  assert (0%Z ∈ Nx.nodes (G three_nodes)) as Hnid
    by (apply elem_of_nodes; vm_compute; by eexists).
  assert (0 <= 1)%Z as Hk by lia.
  destruct (find_neighbors_k_ranking ascending three_nodes 0 1
              three_nodes_have_data Hnid Hk)
    as (res & ranked & Hres & Htake & _ & Hnd & _ & _ & Hsorted & Hties).
  split; [exact Hnid|]. split; [exact Hk|].
  exists res, ranked. split; [exact Hres|]. split; [exact Htake|].
  split; [exact Hnd|]. split; [exact Hsorted|exact Hties].
Defined.

(** C7 (counterexample): on the three-node fixture the one nearest
    neighbour reported for node [0] is node [2], although over the full
    [data] vectors node [1] is strictly nearer to node [0] than node [2].
    There is no tie here, so the order of iteration has no part in it. *)
Example find_neighbors_k_not_full_distance :
  find_neighbors_k ascending three_nodes 0 1 = Ok [2%Z] /\
  gna three_nodes 0 "data" = Ok (VVec [0; 0; 0]) /\
  gna three_nodes 1 "data" = Ok (VVec [1; 0; 0]) /\
  gna three_nodes 2 "data" = Ok (VVec [0; 0; 5]) /\
  euclid_full [1; 0; 0] [0; 0; 0] < euclid_full [0; 0; 5] [0; 0; 0].
Proof.
  split; [exact three_nodes_nearest|].
  do 3 (split; [vm_compute; reflexivity|]).
  unfold euclid_full. cbn [sum_sq_diff]. apply sqrt_lt_1; nra.
Qed.

(** *** [search_path] and its [metric] *)

(** C10: the function [search_path(source, target)] hands to the A* search
    is [metric] closed over [source] and [target]; it gives one result for
    all argument pairs [(a, b)]: [1000] when the edge [(source, target)]
    does not exist, and [-1 * reward] of that edge when it does. *)
Theorem metric_constant_per_search
    (astar_path : Nx.DiGraph -> Z -> Z -> (Z -> Z -> Outcome Value) ->
                  Outcome (list Z))
    (sg : StateGraph.t) (source target : Z) :
  search_path astar_path sg source target
    = astar_path (G sg) source target (metric sg source target) /\
  (forall a b a' b', metric sg source target a b = metric sg source target a' b') /\
  (forall a b, edge_exists sg source target = false ->
               metric sg source target a b = Ok (VInt 1000)) /\
  (forall a b, edge_exists sg source target = true ->
               metric sg source target a b
               = (gea sg source target "reward" ≫= neg_one_times)) /\
  (forall a b r, edge_exists sg source target = true ->
                 gea sg source target "reward" = Ok (VFloat r) ->
                 metric sg source target a b = Ok (VFloat (-1 * r))).
Proof.
  split; [reflexivity|]. split; [reflexivity|]. split; [|split].
  - intros a b He. unfold metric. by rewrite He.
  - intros a b He. unfold metric. by rewrite He.
  - intros a b r He Hr. unfold metric. rewrite He, Hr. reflexivity.
Qed.

Lemma metric_constant_per_search_witness :
  edge_exists two_nodes 0 1 = true /\
  gea two_nodes 0 1 "reward" = Ok (VFloat 3) /\
  edge_exists two_nodes 1 0 = false /\
  metric two_nodes 0 1 1 0 = Ok (VFloat (-1 * 3)) /\
  metric two_nodes 1 0 0 1 = Ok (VInt 1000).
Proof.
  assert (edge_exists two_nodes 0 1 = true) as He by (vm_compute; reflexivity).
  assert (gea two_nodes 0 1 "reward" = Ok (VFloat 3)) as Hr
    by (vm_compute; reflexivity).
  assert (edge_exists two_nodes 1 0 = false) as Hn by (vm_compute; reflexivity).
  destruct (metric_constant_per_search (fun _ _ _ _ => Ok []) two_nodes 0 1)
    as (_ & _ & _ & _ & Hyes).
  destruct (metric_constant_per_search (fun _ _ _ _ => Ok []) two_nodes 1 0)
    as (_ & _ & Hno & _).
  split; [exact He|]. split; [exact Hr|]. split; [exact Hn|].
  split; [exact (Hyes 1%Z 0%Z 3 He Hr)|exact (Hno 0%Z 1%Z Hn)].
Defined.

End StateGraphFacts.

(* ================================================================== *)
(** ** Facts about the PolicyWalk proposal *)

Module PolicyWalkFacts.
Import PolicyWalk.

Lemma choice_elem_of c (l : list R) : l <> [] -> choice c l ∈ l.
Proof.
  intros Hne. unfold choice. apply list_elem_of_In, nth_In.
  apply Nat.mod_upper_bound. by destruct l.
Qed.

(** A run of the bounded loop that returns has applied one step of the
    list to one coordinate, and the stepped coordinate passed the test. *)
Lemma loop_bounded_inv self steps draws loc res :
  steps <> [] -> bounded self = true ->
  loop self steps draws loc = Some (Ok res) ->
  exists i x d, loc !! i = Some x /\ d ∈ steps /\ -1 <= x + d <= 1 /\
                res = <[i := x + d]> loc.
Proof.
  intros Hne Hb. induction draws as [|[c k] rest IH]; cbn; [done|].
  destruct (randint k (dim self)) as [i|]; [|done].
  destruct (loc !! i) as [x|] eqn:Hx; [|done].
  rewrite Hb. case_decide as Hin; [|exact IH].
  intros [= <-]. exists i, x, (choice c steps).
  split; [done|]. split; [by apply choice_elem_of|]. done.
Qed.




Lemma trunc_unit y z : 0 <= y -> IZR z <= y < IZR z + 1 -> trunc y = z.
Proof.
  intros Hpos Hz. unfold trunc. rewrite decide_True by done.
  symmetry. apply Int_part_spec. lra.
Qed.



Lemma two_steps (d a : R) : d ∈ [- a; a] -> d = - a \/ d = a.
Proof.
  intros Hd. apply elem_of_cons in Hd as [->|Hd]; [by left|].
  apply elem_of_cons in Hd as [->|Hd]; [by right|]. by apply elem_of_nil in Hd.
Qed.








(** With a step of at most [1] one draw can end the loop. *)
Lemma policy_walk_can_return self loc :
  bounded self = true -> (0 < dim self)%Z -> loc <> [] ->
  Forall (fun x => -1 <= x <= 1) loc -> 0 <= delta self <= 1 ->
  exists draws res, Base.PolicyWalkProposal.__call__ self draws loc = Some (Ok res).
Proof.
  intros Hb Hdim Hne Hloc Hdelta. destruct loc as [|x l]; [done|].
  apply Forall_cons in Hloc as [Hx _].
  assert (randint 0 (dim self) = Ok 0%nat) as Hi.
  { unfold randint. rewrite decide_False by lia. by rewrite Z.mod_0_l by lia. }
  destruct (decide (x + delta self <= 1)) as [Hup|Hup].
  - exists [(1, 0)%nat]. eexists. unfold Base.PolicyWalkProposal.__call__. cbn.
    rewrite Hi, Hb. cbn. rewrite decide_True by lra. reflexivity.
  - exists [(0, 0)%nat]. eexists. unfold Base.PolicyWalkProposal.__call__. cbn.
    rewrite Hi, Hb. cbn. rewrite decide_True by lra. reflexivity.
Qed.

(** With a step above [2] no draw is ever accepted: the loop of
    birl/base.py does not return. *)
Lemma policy_walk_never_returns self draws loc res :
  bounded self = true -> Forall (fun x => -1 <= x <= 1) loc -> 2 < delta self ->
  Base.PolicyWalkProposal.__call__ self draws loc <> Some (Ok res).
Proof.
  intros Hb Hloc Hdelta Hrun.
  apply loop_bounded_inv in Hrun as (i & x & d & Hx & Hd & Hin & _); try done.
  pose proof (Forall_lookup_1 _ _ _ _ Hloc Hx) as Hbx. cbn in Hbx.
  apply elem_of_cons in Hd as [->|Hd]; [lra|].
  apply elem_of_cons in Hd as [->|Hd]; [lra|]. by apply elem_of_nil in Hd.
Qed.

End PolicyWalkFacts.

(* ================================================================== *)
(** ** Facts about the reward priors *)

Module PriorFacts.
Import Base.

Lemma np_sum_nil : np_sum [] = 0.
Proof. reflexivity. Qed.

Lemma np_sum_cons x l : np_sum (x :: l) = x + np_sum l.
Proof. reflexivity. Qed.

Lemma np_sum_div (s : R) (rp : list R) :
  np_sum (map (fun x => x / s) rp) = np_sum rp / s.
Proof.
  induction rp as [|x rp IH]; cbn [map]; rewrite ?np_sum_nil, ?np_sum_cons.
  - unfold Rdiv. ring.
  - rewrite IH. unfold Rdiv. ring.
Qed.

Lemma np_sum_scale {A} (f : A -> R) (c : R) (l : list A) :
  np_sum (map (fun x => f x * c) l) = np_sum (map f l) * c.
Proof.
  induction l as [|x l IH]; cbn [map]; rewrite ?np_sum_nil, ?np_sum_cons; [ring|].
  rewrite IH. ring.
Qed.

Lemma np_sum_pos {A} (f : A -> R) (l : list A) :
  l <> [] -> (forall x, 0 < f x) -> 0 < np_sum (map f l).
Proof.
  intros Hne Hf. destruct l as [|x l]; [done|]. clear Hne.
  cbn [map]. rewrite np_sum_cons.
  assert (0 <= np_sum (map f l)) as Hl.
  { induction l as [|y l IH]; cbn [map]; rewrite ?np_sum_nil, ?np_sum_cons; [lra|].
    specialize (Hf y). lra. }
  specialize (Hf x). lra.
Qed.

(** Dividing a batch by its sum gives a batch of sum one, as soon as the
    sum is not zero. *)
Lemma normalised_sum (rp : list R) :
  np_sum rp <> 0 -> np_sum (map (fun x => x / np_sum rp) rp) = 1.
Proof. intros Hs. rewrite np_sum_div. by field. Qed.

Lemma np_sum_ones n : np_sum (replicate n 1) = INR n.
Proof.
  induction n as [|n IH]; [reflexivity|].
  cbn [replicate]. rewrite np_sum_cons, IH, S_INR. ring.
Qed.

(** Over the reals the three priors of birl/base.py return a batch that
    sums to one, for every non-empty batch and, for the Gaussian and the
    Laplacian prior, every [sigma] other than zero. *)
Lemma base_priors_sum_to_one (sigma : R) (r : list R) :
  r <> [] -> sigma <> 0 ->
  np_sum (UniformRewardPrior.__call__ r) = 1 /\
  np_sum (GaussianRewardPrior.__call__ sigma r) = 1 /\
  np_sum (LaplacianRewardPrior.__call__ sigma r) = 1.
Proof.
  intros Hr Hsigma. split; [|split].
  - unfold UniformRewardPrior.__call__. cbn zeta. apply normalised_sum.
    rewrite np_sum_ones. apply not_0_INR. by destruct r.
  - unfold GaussianRewardPrior.__call__. cbn zeta. apply normalised_sum.
    rewrite (np_sum_scale
               (fun x => exp ((- (x ^ 2)) / (2 * sigma ^ 2)) / sqrt (2 * PI))).
    apply Rmult_integral_contrapositive_currified; [|done].
    apply Rgt_not_eq, Rlt_gt, np_sum_pos; [done|].
    intros x. apply Rdiv_lt_0_compat; [apply exp_pos|].
    apply sqrt_lt_R0. pose proof PI_RGT_0. lra.
  - unfold LaplacianRewardPrior.__call__. cbn zeta. apply normalised_sum.
    unfold Rdiv at 1.
    rewrite (np_sum_scale (fun x => exp ((- Rabs x) * / (2 * sigma)))).
    apply Rmult_integral_contrapositive_currified.
    + apply Rgt_not_eq, Rlt_gt, np_sum_pos; [done|]. intros x. apply exp_pos.
    + apply Rinv_neq_0_compat. lra.
Qed.

(** C3 (the code at the failing input): the uniform prior of
    graph_birl.py returns its argument where its namesake in birl/base.py
    returns [1 / n] in each place; on the batch [[2]] the result is [[2]],
    which sums to [2]. *)
Example graph_birl_uniform_prior_not_normalised :
  [2] <> [] /\
  GraphBirl.UniformRewardPrior.__call__ [2] = [2] /\
  np_sum (GraphBirl.UniformRewardPrior.__call__ [2]) <> 1.
Proof.
  split; [discriminate|]. split; [reflexivity|].
  unfold GraphBirl.UniformRewardPrior.__call__. cbn. lra.
Qed.

(** The Gaussian prior of graph_birl.py on the batch [[0; 0]] with
    [sigma = 1]: each value is [1 / sqrt (2 * PI)], below [1 / 2]. *)
Lemma graph_birl_gaussian_prior_not_normalised :
  np_sum (GraphBirl.GaussianRewardPrior.__call__ 1 [0; 0]) < 1.
Proof.
  unfold GraphBirl.GaussianRewardPrior.__call__. cbn.
  replace (- (0 * (0 * 1)) / (2 * (1 * (1 * 1)))) with 0 by (by field).
  rewrite exp_0.
  assert (2 < sqrt (2 * PI)) as Hsq.
  { rewrite <- (sqrt_square 2) at 1 by lra. apply sqrt_lt_1; try lra.
    - pose proof PI_RGT_0. lra.
    - pose proof PI2_1. lra. }
  assert (1 / sqrt (2 * PI) < 1 / 2) as Hinv.
  { unfold Rdiv. rewrite !Rmult_1_l. apply Rinv_lt_contravar; lra. }
  lra.
Qed.

End PriorFacts.

(* ================================================================== *)
(** ** Facts about the trajectory-quality evaluator *)

Module QualityFacts.
Import Base Base.GeneratingTrajectoryBIRL.

Lemma float_pow_0 x : float_pow x 0 = 1.
Proof. unfold float_pow. by rewrite decide_True. Qed.

(** A terminal node adds the terminal value, discounted by the time
    elapsed so far, and leaves the time as it is. *)
Lemma visit_terminal self gr reward time QE n :
  StateGraph.out_edges (graph self) n = Ok [] ->
  visit self gr reward (time, QE) n
  = Ok (time, QE + float_pow (gamma self) time * gr).
Proof. intros Hn. unfold visit. by rewrite Hn. Qed.

(** C9: when every expert trajectory is a single node without outgoing
    edges, the evaluator returns the terminal constant [100] for each of
    them, whatever the reward vector and the discount factor. *)
Theorem expert_quality_of_terminal_trajectories self reward :
  Forall (fun traj => exists n, traj = [n] /\
                        StateGraph.out_edges (graph self) n = Ok [])
         (_demos self) ->
  _expert_trajectory_quality self reward
  = Ok (replicate (length (_demos self)) 100).
Proof.
  unfold _expert_trajectory_quality. cbn zeta.
  induction 1 as [|traj demos (n & -> & Hn) _ IH]; cbn [for_each]; [done|].
  cbn [walk]. rewrite (visit_terminal _ _ _ _ _ _ Hn). cbn. rewrite IH. cbn.
  do 2 f_equal. rewrite float_pow_0. lra.
Qed.

Lemma expert_quality_of_terminal_trajectories_witness :
  Forall (fun traj => exists n, traj = [n] /\
                        StateGraph.out_edges (graph Fixtures.expert) n = Ok [])
         (_demos Fixtures.expert) /\
  _expert_trajectory_quality Fixtures.expert [1; 0] = Ok [100].
Proof.
  assert (Forall (fun traj => exists n, traj = [n] /\
                    StateGraph.out_edges (graph Fixtures.expert) n = Ok [])
                 (_demos Fixtures.expert)) as Hdemos.
  { repeat constructor. exists 0%Z. split; [reflexivity|].
    vm_compute. reflexivity. }
  split; [exact Hdemos|].
  exact (expert_quality_of_terminal_trajectories Fixtures.expert [1; 0] Hdemos).
Defined.

End QualityFacts.

(* ================================================================== *)
(** ** Facts about [GBIRL.solve] on the PolicyWalk variant *)

Module SolverFacts.
Import StateGraph GraphBirl StateGraphFacts.

Lemma find_next_reward_is_None e_trajs g_trajs h :
  find_next_reward e_trajs g_trajs h = (Ok VNone, h).
Proof. reflexivity. Qed.

(** Once the reward is [None] it stays [None] through the loop; one turn
    is enough to make it so. *)
Lemma iterate_keeps_None env n e_trajs st h st' h' :
  st.1 = VNone -> iterate env n e_trajs st h = (Ok st', h') -> st'.1 = VNone.
Proof.
  revert st h. induction n as [|n IH]; intros st h Hst; cbn.
  - unfold mret, M_ret. by intros [= <- _].
  - unfold mbind, M_bind. rewrite find_next_reward_is_None.
    destruct (_compute_policy env VNone h) as [[new_policy|] h1]; [|done].
    destruct (_generate_trajestories env new_policy 10 h1) as [[g_trajs|] h2];
      [|done].
    by apply IH.
Qed.

Lemma iterate_sets_None env n e_trajs st h st' h' :
  iterate env (S n) e_trajs st h = (Ok st', h') -> st'.1 = VNone.
Proof.
  cbn. unfold mbind, M_bind. rewrite find_next_reward_is_None.
  destruct (_compute_policy env VNone h) as [[new_policy|] h1]; [|done].
  destruct (_generate_trajestories env new_policy 10 h1) as [[g_trajs|] h2];
    [|done].
  by apply iterate_keeps_None.
Qed.

(** Without a [policy] attribute on the graph object, [_compute_policy]
    cannot return, and so neither can [solve]. *)
Lemma compute_policy_needs_policy_attr env reward h :
  policy_attr env = None -> forall v h', _compute_policy env reward h <> (Ok v, h').
Proof.
  intros Hno v h'. unfold _compute_policy. m_simpl.
  destruct (refresh_rewards reward (all_edges (self h)) h) as [[[]|] h1];
    [|done].
  destruct (graph_policy_iteration env (self h1)) as [sg'|]; [|done].
  by rewrite Hno.
Qed.

Lemma solve_needs_policy_attr env self h :
  policy_attr env = None -> forall v h', solve env self h <> (Ok v, h').
Proof.
  intros Hno v h'. unfold solve. unfold mbind at 1, M_bind at 1.
  destruct (_initial_reward env h) as [[reward|] h1]; [|done].
  unfold mbind at 1, M_bind at 1.
  destruct (_compute_policy env reward h1) as [[pi0|] h2] eqn:Hp; [|done].
  by apply compute_policy_needs_policy_attr in Hp.
Qed.

(** C2 (the code at the failing input): with the classes as they are in
    the embedded sources, [solve] with [max_iter = 1] on the one-node graph
    raises [AttributeError] at [self._initial_reward()], a method the
    classes do not define (they define [initialize_reward]); were that
    method inherited from the base class, [solve] would raise
    [AttributeError] at [self._mdp.graph.policy].  Either way it does not
    return [None]. *)
Example solve_raises_before_the_loop :
  (1 <= _max_iter Fixtures.one_pass)%Z /\
  solve Fixtures.bare Fixtures.one_pass (mkHeap Fixtures.one_node [])
    = (Raise AttributeError, mkHeap Fixtures.one_node []) /\
  solve Fixtures.mixin_only Fixtures.one_pass (mkHeap Fixtures.one_node [])
    = (Raise AttributeError, mkHeap Fixtures.one_node []) /\
  (solve Fixtures.bare Fixtures.one_pass (mkHeap Fixtures.one_node [])).1
    <> Ok VNone.
Proof.
  assert (solve Fixtures.bare Fixtures.one_pass (mkHeap Fixtures.one_node [])
          = (Raise AttributeError, mkHeap Fixtures.one_node [])) as Hrun
    by (vm_compute; reflexivity).
  split; [cbn; lia|]. split; [exact Hrun|].
  split; [vm_compute; reflexivity|]. by rewrite Hrun.
Qed.

End SolverFacts.

(* ================================================================== *)
(** ** Further facts about the state graph: attribute access *)

Module AccessFacts.
Import StateGraph Fixtures StateGraphFacts.

(** [gna] and [gea] as case analyses on the dictionaries. *)
Lemma gna_cases sg n a :
  gna sg n a =
    if bool_decide (a ∈ _node_attrs) then
      match Nx.node (G sg) !! n with
      | Some d => match d !! a with
                  | Some v => Ok v
                  | None => Raise KeyError
                  end
      | None => Raise AssertionError
      end
    else Raise AssertionError.
Proof.
  unfold gna, _check_node_attributes, getitem.
  destruct (bool_decide (a ∈ _node_attrs)); cbn; [|done].
  destruct (Nx.node (G sg) !! n) as [d|] eqn:Hd.
  - rewrite bool_decide_eq_true_2 by (apply elem_of_nodes; by eexists). done.
  - rewrite bool_decide_eq_false_2; [done|].
    rewrite elem_of_nodes, Hd. by intros [? ?].
Qed.

Lemma gea_cases sg s t a :
  gea sg s t a =
    if bool_decide (a ∈ _edge_attrs) then
      match Nx.succ (G sg) !! s with
      | Some nbrs =>
          match nbrs !! t with
          | Some d => match d !! a with
                      | Some v => Ok v
                      | None => Raise KeyError
                      end
          | None => Raise AssertionError
          end
      | None => Raise AssertionError
      end
    else Raise AssertionError.
Proof.
  unfold gea, _check_edge_attributes, getitem, Nx.has_edge.
  destruct (bool_decide (a ∈ _edge_attrs)); cbn; [|done].
  destruct (Nx.succ (G sg) !! s) as [nbrs|]; cbn; [|done].
  destruct (nbrs !! t) as [d|] eqn:Hd.
  - rewrite bool_decide_eq_true_2 by (by eexists). done.
  - rewrite bool_decide_eq_false_2 by (by intros [? ?]). done.
Qed.

Lemma gea_Ok_edge sg s t a v : gea sg s t a = Ok v -> edge_exists sg s t = true.
Proof.
  rewrite gea_cases. unfold edge_exists, Nx.has_edge.
  destruct (bool_decide _); [|done].
  destruct (Nx.succ (G sg) !! s) as [nbrs|]; [|done].
  destruct (nbrs !! t) as [d|] eqn:Hd; [|done].
  intros _. apply bool_decide_eq_true. by eexists.
Qed.

(** X1: the four outcomes of [gna]: [AssertionError] for an attribute
    name outside the allow-list and for an identifier that is not a node,
    [KeyError] for an allowed attribute the node does not carry, and the
    stored value otherwise. *)
Theorem gna_outcomes sg n a :
  (a ∉ _node_attrs -> gna sg n a = Raise AssertionError) /\
  (n ∉ Nx.nodes (G sg) -> gna sg n a = Raise AssertionError) /\
  (forall d, a ∈ _node_attrs -> Nx.node (G sg) !! n = Some d -> d !! a = None ->
             gna sg n a = Raise KeyError) /\
  (forall d v, a ∈ _node_attrs -> Nx.node (G sg) !! n = Some d -> d !! a = Some v ->
               gna sg n a = Ok v).
Proof.
  rewrite gna_cases. repeat split.
  - intros Ha. by rewrite bool_decide_eq_false_2.
  - intros Hn. rewrite elem_of_nodes in Hn.
    destruct (Nx.node (G sg) !! n); [destruct Hn; by eexists|].
    by destruct (bool_decide _).
  - intros d Ha Hd Hv. by rewrite bool_decide_eq_true_2, Hd, Hv.
  - intros d v Ha Hd Hv. by rewrite bool_decide_eq_true_2, Hd, Hv.
Qed.

Lemma gna_outcomes_witness :
  ("policy"%string ∉ _node_attrs) /\ (7%Z ∉ Nx.nodes (G one_node)) /\
  gna one_node 0 "policy" = Raise AssertionError /\
  gna one_node 7 "cost" = Raise AssertionError /\
  gna one_node 0 "cost" = Ok (VFloat 0).
Proof.
  assert ("policy"%string ∉ _node_attrs) as Ha
    by (intros H; apply (bool_decide_pack _) in H; vm_compute in H; exact H).
  assert (7%Z ∉ Nx.nodes (G one_node)) as Hn.
  { rewrite elem_of_nodes. vm_compute. by intros [? ?]. }
  assert ("cost"%string ∈ _node_attrs) as Hc by str_mem.
  split; [exact Ha|]. split; [exact Hn|].
  split; [exact (proj1 (gna_outcomes one_node 0 "policy") Ha)|].
  split; [exact (proj1 (proj2 (gna_outcomes one_node 7 "cost")) Hn)|].
  refine (proj2 (proj2 (proj2 (gna_outcomes one_node 0 "cost"))) _ _ Hc _ _);
    vm_compute; reflexivity.
Defined.

(** X2: the four outcomes of [gea]: [AssertionError] for an attribute
    name outside the allow-list and for a pair without an edge, [KeyError]
    for an allowed attribute the edge does not carry, and the stored value
    otherwise. *)
Theorem gea_outcomes sg s t a :
  (a ∉ _edge_attrs -> gea sg s t a = Raise AssertionError) /\
  (edge_exists sg s t = false -> gea sg s t a = Raise AssertionError) /\
  (forall nbrs d, a ∈ _edge_attrs -> Nx.succ (G sg) !! s = Some nbrs ->
                  nbrs !! t = Some d -> d !! a = None ->
                  gea sg s t a = Raise KeyError) /\
  (forall nbrs d v, a ∈ _edge_attrs -> Nx.succ (G sg) !! s = Some nbrs ->
                    nbrs !! t = Some d -> d !! a = Some v ->
                    gea sg s t a = Ok v).
Proof.
  rewrite gea_cases. repeat split.
  - intros Ha. by rewrite bool_decide_eq_false_2.
  - unfold edge_exists. rewrite has_edge_false. intros He.
    destruct (bool_decide _); [|done].
    destruct (Nx.succ (G sg) !! s) as [nbrs|]; [|done].
    by rewrite (He nbrs eq_refl).
  - intros nbrs d Ha Hs Ht Hv. by rewrite bool_decide_eq_true_2, Hs, Ht, Hv.
  - intros nbrs d v Ha Hs Ht Hv. by rewrite bool_decide_eq_true_2, Hs, Ht, Hv.
Qed.

Lemma gea_outcomes_witness :
  edge_exists two_nodes 1 0 = false /\
  gea two_nodes 1 0 "reward" = Raise AssertionError /\
  gea two_nodes 0 1 "source" = Raise KeyError.
Proof.
  assert (edge_exists two_nodes 1 0 = false) as He by (vm_compute; reflexivity).
  assert ("source"%string ∈ _edge_attrs) as Ha by str_mem.
  split; [exact He|].
  split; [exact (proj1 (proj2 (gea_outcomes two_nodes 1 0 "reward")) He)|].
  refine (proj1 (proj2 (proj2 (gea_outcomes two_nodes 0 1 "source"))) _ _ Ha _ _ _);
    vm_compute; reflexivity.
Defined.

(** X3: [sna] followed by [gna] gives the value back; every other
    attribute of every node reads as before, no node is added, the edges
    are untouched and no warning is issued. *)
Theorem sna_gna_round_trip h n a v :
  a ∈ _node_attrs -> n ∈ Nx.nodes (G (self h)) ->
  (sna n a v h).1 = Ok tt /\
  gna (self (sna n a v h).2) n a = Ok v /\
  (forall n' a', (n', a') <> (n, a) ->
     gna (self (sna n a v h).2) n' a' = gna (self h) n' a') /\
  (forall m, m ∈ Nx.nodes (G (self (sna n a v h).2)) <-> m ∈ Nx.nodes (G (self h))) /\
  Nx.succ (G (self (sna n a v h).2)) = Nx.succ (G (self h)) /\
  warned (sna n a v h).2 = warned h.
Proof.
  intros Ha Hn. destruct h as [sg ws].
  pose proof Hn as Hn'. apply elem_of_nodes in Hn' as [d Hd]. cbn in Hd.
  unfold sna. m_simpl. unfold _check_node_attributes, getitem. m_simpl.
  rewrite (bool_decide_eq_true_2 (a ∈ _node_attrs)) by done. cbn.
  rewrite (bool_decide_eq_true_2 (n ∈ Nx.nodes (G sg))) by done. cbn.
  rewrite Hd. cbn. split; [done|]. split; [|split; [|split]].
  - rewrite gna_cases. cbn. rewrite bool_decide_eq_true_2 by done.
    by rewrite !lookup_insert_eq.
  - intros n' a' Hne. rewrite !gna_cases. cbn.
    destruct (bool_decide (a' ∈ _node_attrs)); [|done].
    destruct (decide (n' = n)) as [->|Hn'].
    + rewrite lookup_insert_eq, Hd.
      rewrite lookup_insert_ne by congruence. done.
    + by rewrite lookup_insert_ne.
  - intros m. rewrite !elem_of_nodes. cbn.
    destruct (decide (m = n)) as [->|Hm].
    + rewrite lookup_insert_eq, Hd. split; by eexists.
    + by rewrite lookup_insert_ne.
  - done.
Qed.

Lemma sna_gna_round_trip_witness :
  ("cost"%string ∈ _node_attrs) /\ (0%Z ∈ Nx.nodes (G one_node)) /\
  gna (self (sna 0 "cost" (VFloat 7) (mkHeap one_node [])).2) 0 "cost"
  = Ok (VFloat 7).
Proof.
  assert ("cost"%string ∈ _node_attrs) as Ha by str_mem.
  assert (0%Z ∈ Nx.nodes (G (self (mkHeap one_node [])))) as Hn
    by (apply elem_of_nodes; vm_compute; by eexists).
  split; [exact Ha|]. split; [exact Hn|].
  exact (proj1 (proj2 (sna_gna_round_trip (mkHeap one_node []) 0 "cost"
                         (VFloat 7) Ha Hn))).
Defined.

Lemma sea_effect h s t a v :
  a ∈ _edge_attrs -> edge_exists (self h) s t = true ->
  (sea s t a v h).1 = Ok tt /\
  gea (self (sea s t a v h).2) s t a = Ok v /\
  (forall s' t' a', (s', t', a') <> (s, t, a) ->
     gea (self (sea s t a v h).2) s' t' a' = gea (self h) s' t' a') /\
  (forall s' t', edge_exists (self (sea s t a v h).2) s' t'
                 = edge_exists (self h) s' t') /\
  Nx.node (G (self (sea s t a v h).2)) = Nx.node (G (self h)) /\
  warned (sea s t a v h).2 = warned h.
Proof.
  intros Ha He. destruct h as [sg ws]. cbn in He.
  pose proof He as He'. unfold edge_exists, Nx.has_edge in He'.
  destruct (Nx.succ (G sg) !! s) as [nbrs|] eqn:Hs; [|done].
  apply bool_decide_eq_true in He' as [d Hd].
  unfold sea. m_simpl. unfold _check_edge_attributes, getitem. m_simpl.
  rewrite (bool_decide_eq_true_2 (a ∈ _edge_attrs)) by done. cbn.
  unfold edge_exists in He. rewrite He. cbn. rewrite Hs. cbn. rewrite Hd. cbn.
  split; [done|]. split; [|split; [|split]].
  - rewrite gea_cases. cbn. rewrite bool_decide_eq_true_2 by done.
    by rewrite !lookup_insert_eq.
  - intros s' t' a' Hne. rewrite !gea_cases. cbn.
    destruct (bool_decide (a' ∈ _edge_attrs)); [|done].
    destruct (decide (s' = s)) as [->|Hs'].
    + rewrite lookup_insert_eq, Hs.
      destruct (decide (t' = t)) as [->|Ht'].
      * rewrite lookup_insert_eq, Hd. rewrite lookup_insert_ne by congruence. done.
      * by rewrite lookup_insert_ne.
    + by rewrite lookup_insert_ne.
  - intros s' t'. unfold edge_exists, Nx.has_edge. cbn.
    destruct (decide (s' = s)) as [->|Hs'].
    + rewrite lookup_insert_eq, Hs.
      destruct (decide (t' = t)) as [->|Ht'].
      * rewrite lookup_insert_eq, Hd.
        rewrite !bool_decide_eq_true_2; [done|by eexists..].
      * by rewrite lookup_insert_ne.
    + by rewrite lookup_insert_ne.
  - done.
Qed.

(** X4: [sea] followed by [gea] gives the value back; every other
    attribute of every edge reads as before, the set of edges and the
    nodes are untouched and no warning is issued. *)
Theorem sea_gea_round_trip h s t a v :
  a ∈ _edge_attrs -> edge_exists (self h) s t = true ->
  (sea s t a v h).1 = Ok tt /\
  gea (self (sea s t a v h).2) s t a = Ok v /\
  (forall s' t' a', (s', t', a') <> (s, t, a) ->
     gea (self (sea s t a v h).2) s' t' a' = gea (self h) s' t' a') /\
  (forall s' t', edge_exists (self (sea s t a v h).2) s' t'
                 = edge_exists (self h) s' t') /\
  Nx.node (G (self (sea s t a v h).2)) = Nx.node (G (self h)) /\
  warned (sea s t a v h).2 = warned h.
Proof. apply sea_effect. Qed.

Lemma sea_gea_round_trip_witness :
  ("reward"%string ∈ _edge_attrs) /\ edge_exists two_nodes 0 1 = true /\
  gea (self (sea 0 1 "reward" (VFloat 7) (mkHeap two_nodes [])).2) 0 1 "reward"
  = Ok (VFloat 7).
Proof.
  assert ("reward"%string ∈ _edge_attrs) as Ha by str_mem.
  assert (edge_exists (self (mkHeap two_nodes [])) 0 1 = true) as He
    by (vm_compute; reflexivity).
  split; [exact Ha|]. split; [exact He|].
  exact (proj1 (proj2 (sea_gea_round_trip (mkHeap two_nodes []) 0 1 "reward"
                         (VFloat 7) Ha He))).
Defined.

End AccessFacts.

(* ================================================================== *)
(** ** Further facts about the state graph: nodes and edges *)

Module StructureFacts.
Import StateGraph Fixtures StateGraphFacts AccessFacts.

Lemma has_node_elem_of g n : Nx.has_node g n = true <-> n ∈ Nx.nodes g.
Proof. unfold Nx.has_node. by rewrite bool_decide_eq_true, elem_of_nodes. Qed.

Lemma has_edge_true g u v :
  Nx.has_edge g u v = true <->
  exists nbrs d, Nx.succ g !! u = Some nbrs /\ nbrs !! v = Some d.
Proof.
  unfold Nx.has_edge. destruct (Nx.succ g !! u) as [nbrs|].
  - rewrite bool_decide_eq_true. split.
    + intros [d Hd]. by exists nbrs, d.
    + intros (? & d & [= <-] & Hd). by eexists.
  - split; [done|]. by intros (? & ? & ? & _).
Qed.

(** *** The dictionaries after [networkx]'s [add_edge] *)

Lemma touch_succ_lookup g n m :
  Nx.succ (Nx.touch g n) !! m =
    if decide (m = n) then Some (default ∅ (Nx.succ g !! n)) else Nx.succ g !! m.
Proof.
  unfold Nx.touch. destruct (Nx.succ g !! n) as [nb|] eqn:E; cbn.
  - case_decide as Hm; [by subst|done].
  - case_decide as Hm; [subst; apply lookup_insert_eq|by apply lookup_insert_ne].
Qed.

Lemma touch_node_lookup g n m :
  Nx.consistent g ->
  Nx.node (Nx.touch g n) !! m =
    if decide (m = n) then Some (default ∅ (Nx.node g !! n)) else Nx.node g !! m.
Proof.
  intros [Hdom _]. unfold Nx.touch.
  destruct (Nx.succ g !! n) as [nb|] eqn:E; cbn.
  - case_decide as Hm; [|done]. subst.
    destruct (proj2 (Hdom n)) as [d Hd]; [by eexists|]. by rewrite Hd.
  - assert (Nx.node g !! n = None) as Hnone.
    { apply eq_None_not_Some. intros H. apply Hdom in H as [? ?]. congruence. }
    case_decide as Hm; [subst; by rewrite lookup_insert_eq, Hnone|].
    by apply lookup_insert_ne.
Qed.

Lemma touch_consistent g n : Nx.consistent g -> Nx.consistent (Nx.touch g n).
Proof.
  intros Hc. pose proof Hc as [Hdom Hedge]. split.
  - intros m. rewrite touch_node_lookup, touch_succ_lookup by done.
    case_decide; [split; by eexists|apply Hdom].
  - intros u v. rewrite has_edge_true. intros (nbrs & d & Hu & Hv).
    rewrite touch_succ_lookup in Hu. rewrite touch_node_lookup by done.
    destruct (decide (v = n)) as [->|Hvn]; [by eexists|].
    apply (Hedge u v), has_edge_true.
    destruct (decide (u = n)) as [->|Hun]; [|by eauto]. injection Hu as <-.
    destruct (Nx.succ g !! n) as [nb|]; [by eauto|]. by (cbn in Hv; rewrite ?lookup_empty in Hv).
Qed.

Lemma nx_add_edge_succ g u v attrs m :
  Nx.succ (Nx.add_edge g u v attrs) !! m =
    if decide (m = u) then
      Some (<[v := attrs ∪ default ∅ (default ∅ (Nx.succ g !! u) !! v)]>
              (default ∅ (Nx.succ g !! u)))
    else if decide (m = v) then Some (default ∅ (Nx.succ g !! v))
    else Nx.succ g !! m.
Proof.
  unfold Nx.add_edge. cbn.
  assert (Nx.succ (Nx.touch (Nx.touch g u) v) !! u
          = Some (default ∅ (Nx.succ g !! u))) as Hu.
  { rewrite touch_succ_lookup. case_decide as Huv.
    - subst. rewrite touch_succ_lookup, decide_True by done. done.
    - rewrite touch_succ_lookup, decide_True by done. done. }
  rewrite Hu. cbn. case_decide as Hm.
  - subst. by rewrite lookup_insert_eq.
  - rewrite lookup_insert_ne by done. rewrite touch_succ_lookup.
    case_decide as Hmv.
    + subst. by rewrite touch_succ_lookup, decide_False.
    + by rewrite touch_succ_lookup, decide_False.
Qed.

Lemma nx_add_edge_node g u v attrs m :
  Nx.consistent g ->
  Nx.node (Nx.add_edge g u v attrs) !! m =
    if decide (m = u \/ m = v) then Some (default ∅ (Nx.node g !! m))
    else Nx.node g !! m.
Proof.
  intros Hc. unfold Nx.add_edge. cbn.
  rewrite touch_node_lookup by by apply touch_consistent.
  rewrite !touch_node_lookup by done.
  destruct (decide (m = u \/ m = v)) as [Huv|Huv].
  - destruct (decide (m = v)) as [->|Hmv].
    + destruct (decide (v = u)) as [->|Hvu]; [|done].
      by destruct (Nx.node g !! u).
    + destruct Huv as [->|?]; [|done]. by rewrite decide_True.
  - rewrite !decide_False by tauto. done.
Qed.

Lemma nx_add_edge_consistent g u v attrs :
  Nx.consistent g -> Nx.consistent (Nx.add_edge g u v attrs).
Proof.
  intros Hc. pose proof Hc as [Hdom Hedge]. split.
  - intros m. rewrite nx_add_edge_node, nx_add_edge_succ by done.
    destruct (decide (m = u \/ m = v)) as [Huv|Huv].
    + destruct (decide (m = u)); [split; by eexists|].
      destruct (decide (m = v)); [split; by eexists|tauto].
    + rewrite !decide_False by tauto. apply Hdom.
  - intros a b. rewrite has_edge_true. intros (nbrs & d & Ha & Hb).
    rewrite nx_add_edge_succ in Ha. rewrite nx_add_edge_node by done.
    destruct (decide (b = u \/ b = v)) as [Hbuv|Hbuv]; [by eexists|].
    apply (Hedge a b), has_edge_true.
    destruct (decide (a = u)) as [->|Hau].
    + injection Ha as <-. rewrite lookup_insert_ne in Hb by (intros ->; tauto).
      destruct (Nx.succ g !! u) as [nb|]; [by eauto|]. by (cbn in Hb; rewrite ?lookup_empty in Hb).
    + destruct (decide (a = v)) as [->|Hav]; [|by eauto].
      injection Ha as <-.
      destruct (Nx.succ g !! v) as [nb|]; [by eauto|]. by (cbn in Hb; rewrite ?lookup_empty in Hb).
Qed.

Lemma nx_add_node_consistent g n attrs :
  Nx.consistent g -> Nx.consistent (Nx.add_node g n attrs).
Proof.
  intros [Hdom Hedge]. unfold Nx.add_node.
  destruct (Nx.succ g !! n) as [nb|] eqn:E; split; cbn.
  - intros m. destruct (decide (m = n)) as [->|Hm].
    + rewrite lookup_insert_eq, E. split; by eexists.
    + rewrite lookup_insert_ne by done. apply Hdom.
  - intros u v Huv. destruct (decide (v = n)) as [->|Hv].
    + rewrite lookup_insert_eq. by eexists.
    + rewrite lookup_insert_ne by done. by apply (Hedge u v).
  - intros m. destruct (decide (m = n)) as [->|Hm].
    + rewrite !lookup_insert_eq. split; by eexists.
    + rewrite !lookup_insert_ne by done. apply Hdom.
  - intros u v. rewrite has_edge_true. cbn. intros (nbrs & d & Hu & Hv).
    destruct (decide (v = n)) as [->|Hvn];
      [rewrite lookup_insert_eq; by eexists|].
    rewrite lookup_insert_ne by done. apply (Hedge u v), has_edge_true.
    destruct (decide (u = n)) as [->|Hun].
    + rewrite lookup_insert_eq in Hu. injection Hu as <-.
      by (cbn in Hv; rewrite ?lookup_empty in Hv).
    + rewrite lookup_insert_ne in Hu by done. by eauto.
Qed.

Lemma nx_remove_edge_consistent g u v g' :
  Nx.consistent g -> Nx.remove_edge g u v = Ok g' -> Nx.consistent g'.
Proof.
  intros [Hdom Hedge]. unfold Nx.remove_edge.
  destruct (Nx.succ g !! u) as [nbrs|] eqn:Hs; [|done].
  destruct (nbrs !! v) as [d|] eqn:Hd; [|done]. intros [= <-]. split; cbn.
  - intros m. destruct (decide (m = u)) as [->|Hm].
    + rewrite lookup_insert_eq, Hdom, Hs. split; by eexists.
    + rewrite lookup_insert_ne by done. apply Hdom.
  - intros a b. rewrite has_edge_true. cbn. intros (nb & d' & Ha & Hb).
    apply (Hedge a b), has_edge_true.
    destruct (decide (a = u)) as [->|Hau].
    + rewrite lookup_insert_eq in Ha. injection Ha as <-.
      destruct (decide (b = v)) as [->|Hbv];
        [by rewrite lookup_delete_eq in Hb|].
      rewrite lookup_delete_ne in Hb by done. by eauto.
    + rewrite lookup_insert_ne in Ha by done. by eauto.
Qed.

Lemma nx_remove_node_lookups g n g' :
  Nx.remove_node g n = Ok g' ->
  (forall m, Nx.node g' !! m = if decide (m = n) then None else Nx.node g !! m) /\
  (forall u v, Nx.has_edge g' u v
               = (Nx.has_edge g u v && bool_decide (u <> n) && bool_decide (v <> n))).
Proof.
  unfold Nx.remove_node.
  destruct (Nx.succ g !! n) as [nb|] eqn:Hs; [|done].
  destruct (Nx.node g !! n) as [dn|] eqn:Hn; [|done]. intros [= <-]. split; cbn.
  - intros m. case_decide as Hm; [subst; apply lookup_delete_eq|].
    by apply lookup_delete_ne.
  - intros u v. unfold Nx.has_edge. cbn. rewrite lookup_fmap.
    destruct (decide (u = n)) as [->|Hu].
    + rewrite lookup_delete_eq. cbn.
      rewrite (bool_decide_eq_false_2 (n <> n)) by tauto.
      by rewrite andb_false_r.
    + rewrite lookup_delete_ne by done.
      rewrite (bool_decide_eq_true_2 (u <> n)) by done. rewrite andb_true_r.
      destruct (Nx.succ g !! u) as [nbrs|]; cbn; [|done].
      destruct (decide (v = n)) as [->|Hv].
      * rewrite lookup_delete_eq, (bool_decide_eq_false_2 (n <> n)) by tauto.
        rewrite andb_false_r. apply bool_decide_eq_false. by intros [? ?].
      * rewrite lookup_delete_ne by done.
        rewrite (bool_decide_eq_true_2 (v <> n)) by done. by rewrite andb_true_r.
Qed.

Lemma nx_remove_node_consistent g n g' :
  Nx.consistent g -> Nx.remove_node g n = Ok g' -> Nx.consistent g'.
Proof.
  intros [Hdom Hedge] Hrm.
  destruct (nx_remove_node_lookups g n g' Hrm) as [Hnode Hhas]. split.
  - intros m. rewrite Hnode. unfold Nx.remove_node in Hrm.
    destruct (Nx.succ g !! n) as [nb|] eqn:Hs; [|done].
    destruct (Nx.node g !! n) as [dn|] eqn:Hn; [|done]. injection Hrm as <-. cbn.
    rewrite lookup_fmap. case_decide as Hm.
    + subst. rewrite lookup_delete_eq. cbn. split; by intros [? ?].
    + rewrite lookup_delete_ne by done. rewrite Hdom.
      destruct (Nx.succ g !! m); cbn; split; intros [? ?]; by eauto.
  - intros u v. rewrite Hhas, Hnode.
    rewrite !andb_true_iff, !bool_decide_eq_true. intros [[Huv _] Hv].
    rewrite decide_False by done. by apply (Hedge u v).
Qed.

Lemma consistent_kept h :
  Nx.consistent (G (self h)) ->
  (forall nid data cost priority Q V pi ntype,
     Nx.consistent (G (self (add_node nid data cost priority Q V pi ntype h).2))) /\
  (forall source target duration reward phi traj,
     Nx.consistent (G (self (add_edge source target duration reward phi traj h).2))) /\
  (forall source target,
     Nx.consistent (G (self (remove_edge source target h).2))) /\
  (forall node, Nx.consistent (G (self (remove_node node h).2))) /\
  (forall n a v, Nx.consistent (G (self (sna n a v h).2))) /\
  (forall s t a v, Nx.consistent (G (self (sea s t a v h).2))) /\
  Nx.consistent (G (self (clear h).2)).
Proof.
  intros Hc. destruct h as [sg ws]. cbn in Hc.
  refine (conj _ (conj _ (conj _ (conj _ (conj _ (conj _ _)))))).
  - intros. unfold add_node. m_simpl.
    destruct (py_len data) as [len|]; cbn; [|done].
    destruct (bool_decide (len = _state_dim sg)); cbn; [|done].
    destruct (Nx.has_node (G sg) nid); cbn; [done|].
    by apply nx_add_node_consistent.
  - intros. unfold add_edge. m_simpl.
    destruct (bool_decide (0 <= duration)); cbn; [|done].
    destruct (bool_decide (ndim traj = 2%Z)); cbn; [|done].
    destruct (decide (source = target)); cbn; [done|].
    destruct (Nx.has_edge (G sg) source target); cbn; [done|].
    by apply nx_add_edge_consistent.
  - intros source target. unfold remove_edge.
    destruct (decide (source = target)); m_simpl;
      (destruct (Nx.remove_edge (G sg) source target) as [g'|] eqn:E; cbn;
       [by eapply nx_remove_edge_consistent|done]).
  - intros node. unfold remove_node. m_simpl.
    destruct (Nx.remove_node (G sg) node) as [g'|] eqn:E; cbn;
      [by eapply nx_remove_node_consistent|done].
  - intros n a v. unfold sna. m_simpl.
    destruct (_check_node_attributes sg n a); cbn; [|done].
    unfold getitem. destruct (Nx.node (G sg) !! n) as [d|] eqn:Hd; cbn; [|done].
    destruct Hc as [Hdom Hedge]. split; cbn.
    + intros m. destruct (decide (m = n)) as [->|Hm].
      * rewrite lookup_insert_eq, <- (Hdom n), Hd. split; by eexists.
      * rewrite lookup_insert_ne by done. apply Hdom.
    + intros u w Huw. destruct (decide (w = n)) as [->|Hw].
      * rewrite lookup_insert_eq. by eexists.
      * rewrite lookup_insert_ne by done. by apply (Hedge u w).
  - intros s t a v.
    destruct (edge_exists sg s t) eqn:He.
    + destruct (decide (a ∈ _edge_attrs)) as [Ha|Ha].
      * destruct (sea_effect (mkHeap sg ws) s t a v Ha He)
          as (_ & _ & _ & Hedges & Hnodes & _).
        destruct Hc as [Hdom Hedge]. split.
        -- intros m. rewrite Hnodes. cbn. rewrite Hdom.
           unfold sea. m_simpl. unfold _check_edge_attributes, getitem. m_simpl.
           rewrite (bool_decide_eq_true_2 (a ∈ _edge_attrs)) by done. cbn.
           unfold edge_exists in He. rewrite He. cbn.
           apply has_edge_true in He as (nbrs & d & Hs & Hd).
           rewrite Hs. cbn. rewrite Hd. cbn.
           destruct (decide (m = s)) as [->|Hm].
           ++ rewrite lookup_insert_eq, Hs. split; by eexists.
           ++ by rewrite lookup_insert_ne.
        -- intros u w Huw. rewrite Hnodes. cbn.
           apply (Hedge u w). specialize (Hedges u w).
           unfold edge_exists in Hedges. rewrite Hedges in Huw. exact Huw.
      * unfold sea. m_simpl. unfold _check_edge_attributes. m_simpl.
        by rewrite (bool_decide_eq_false_2 (a ∈ _edge_attrs)).
    + unfold sea. m_simpl. unfold _check_edge_attributes. m_simpl.
      unfold edge_exists in He. rewrite He.
      by destruct (bool_decide (a ∈ _edge_attrs)).
  - split; [intros n; cbn; by rewrite !lookup_empty|intros u v; by cbn].
Qed.

Lemma empty_consistent : Nx.consistent Nx.empty.
Proof. split; [intros n; cbn; by rewrite !lookup_empty|intros u v; by cbn]. Qed.

Lemma reachable_consistent sg : reachable sg -> Nx.consistent (G sg).
Proof.
  induction 1 as [sd|h nid data cost priority Q V pi ntype _ IH
                 |h source target duration reward phi traj _ IH
                 |h source target _ IH
                 |h node_id attribute value _ IH
                 |h source target attribute value _ IH].
  - apply empty_consistent.
  - apply (consistent_kept h IH).
  - apply (consistent_kept h IH).
  - apply (consistent_kept h IH).
  - apply (consistent_kept h IH).
  - apply (consistent_kept h IH).
Qed.

Lemma one_node_reachable : reachable one_node.
Proof. apply (reachable_add_node (mkHeap (mk Nx.empty 2) [])), reachable_init. Qed.

Lemma two_nodes_consistent : Nx.consistent (G two_nodes).
Proof.
  apply nx_add_edge_consistent, nx_add_node_consistent, nx_add_node_consistent,
    empty_consistent.
Qed.

(** X5: each of the seven mutating methods keeps the graph consistent:
    afterwards the node dictionary and the adjacency dictionary still have
    the same keys and every edge ends in a node, whether the call returned
    or raised. *)
Theorem mutators_keep_consistent h :
  Nx.consistent (G (self h)) ->
  (forall nid data cost priority Q V pi ntype,
     Nx.consistent (G (self (add_node nid data cost priority Q V pi ntype h).2))) /\
  (forall source target duration reward phi traj,
     Nx.consistent (G (self (add_edge source target duration reward phi traj h).2))) /\
  (forall source target,
     Nx.consistent (G (self (remove_edge source target h).2))) /\
  (forall node, Nx.consistent (G (self (remove_node node h).2))) /\
  (forall n a v, Nx.consistent (G (self (sna n a v h).2))) /\
  (forall s t a v, Nx.consistent (G (self (sea s t a v h).2))) /\
  Nx.consistent (G (self (clear h).2)).
Proof. apply consistent_kept. Qed.

Lemma mutators_keep_consistent_witness :
  Nx.consistent (G (self (mkHeap (mk Nx.empty 2) []))) /\
  Nx.consistent (G (self (plain_node 0 [0; 0] (mkHeap (mk Nx.empty 2) [])).2)).
Proof.
  assert (Nx.consistent (G (self (mkHeap (mk Nx.empty 2) [])))) as Hc.
  { split; [intros n; cbn; by rewrite !lookup_empty|intros u v; by cbn]. }
  split; [exact Hc|].
  exact (proj1 (mutators_keep_consistent (mkHeap (mk Nx.empty 2) []) Hc)
           0%Z (VVec [0; 0]) (VFloat 0) (VFloat 0) (VVec []) (VFloat 0) (VInt 0)
           (VStr "simple")).
Defined.

(** *** [add_node] *)

Lemma not_node_no_succ g n :
  Nx.consistent g -> n ∉ Nx.nodes g -> Nx.succ g !! n = None /\ Nx.node g !! n = None.
Proof.
  intros [Hdom _] Hn. rewrite elem_of_nodes in Hn.
  split; apply eq_None_not_Some; [rewrite <- Hdom|]; done.
Qed.

(** X6: a node added under a fresh identifier, with a state vector of the
    graph's dimension, can be read back attribute by attribute; the other
    nodes and all edges are as before and no warning is issued. *)
Theorem add_node_then_gna h nid data cost priority Q V pi ntype :
  Nx.consistent (G (self h)) ->
  py_len data = Ok (_state_dim (self h)) ->
  nid ∉ Nx.nodes (G (self h)) ->
  (add_node nid data cost priority Q V pi ntype h).1 = Ok tt /\
  warned (add_node nid data cost priority Q V pi ntype h).2 = warned h /\
  (forall sg', sg' = self (add_node nid data cost priority Q V pi ntype h).2 ->
     gna sg' nid "data" = Ok data /\ gna sg' nid "cost" = Ok cost /\
     gna sg' nid "priority" = Ok priority /\ gna sg' nid "Q" = Ok Q /\
     gna sg' nid "V" = Ok V /\ gna sg' nid "pi" = Ok pi /\
     gna sg' nid "type" = Ok ntype /\
     (forall n, n ∈ Nx.nodes (G sg') <-> n = nid \/ n ∈ Nx.nodes (G (self h))) /\
     (forall n a, n <> nid -> gna sg' n a = gna (self h) n a) /\
     (forall u v, edge_exists sg' u v = edge_exists (self h) u v)).
Proof.
  intros Hc Hlen Hfresh. destruct h as [sg ws]. cbn in *.
  destruct (not_node_no_succ _ _ Hc Hfresh) as [Hsucc Hnode].
  unfold add_node. m_simpl. rewrite Hlen. cbn.
  rewrite bool_decide_eq_true_2 by done. cbn.
  assert (Nx.has_node (G sg) nid = false) as ->.
  { apply not_true_is_false. by rewrite has_node_elem_of. }
  cbn. split; [done|]. split; [done|]. intros sg' ->. cbn.
  unfold Nx.add_node. rewrite Hsucc.
  repeat (split; [eapply gna_present;
                  [str_mem|apply lookup_insert_eq|vm_compute; reflexivity]|]).
  split; [|split].
  - intros n. rewrite !elem_of_nodes. cbn.
    destruct (decide (n = nid)) as [->|Hn].
    + rewrite lookup_insert_eq. split; [by left|by eexists].
    + rewrite lookup_insert_ne by done. split; [by right|by intros [?|?]].
  - intros n a Hn. rewrite !gna_cases. cbn. by rewrite lookup_insert_ne.
  - intros u v. unfold edge_exists, Nx.has_edge. cbn.
    destruct (decide (u = nid)) as [->|Hu].
    + by rewrite lookup_insert_eq, Hsucc.
    + by rewrite lookup_insert_ne.
Qed.

Lemma add_node_then_gna_witness :
  Nx.consistent (G (self (mkHeap (mk Nx.empty 2) []))) /\
  py_len (VVec [0; 0]) = Ok 2%Z /\
  (5%Z ∉ Nx.nodes (G (self (mkHeap (mk Nx.empty 2) [])))) /\
  (plain_node 5 [0; 0] (mkHeap (mk Nx.empty 2) [])).1 = Ok tt.
Proof.
  assert (Nx.consistent (G (self (mkHeap (mk Nx.empty 2) [])))) as Hc.
  { split; [intros n; cbn; by rewrite !lookup_empty|intros u v; by cbn]. }
  assert (py_len (VVec [0; 0]) = Ok (_state_dim (self (mkHeap (mk Nx.empty 2) []))))
    as Hlen by reflexivity.
  assert (5%Z ∉ Nx.nodes (G (self (mkHeap (mk Nx.empty 2) [])))) as Hfresh.
  { rewrite elem_of_nodes. cbn. rewrite lookup_empty. by intros [? ?]. }
  split; [exact Hc|]. split; [exact Hlen|]. split; [exact Hfresh|].
  exact (proj1 (add_node_then_gna (mkHeap (mk Nx.empty 2) []) 5 (VVec [0; 0])
                  (VFloat 0) (VFloat 0) (VVec []) (VFloat 0) (VInt 0)
                  (VStr "simple") Hc Hlen Hfresh)).
Defined.

(** X7: what [add_node] refuses.  A state vector of another length than
    [state_dim] raises [AssertionError]; an identifier already in the graph
    gives the warning and keeps the stored attributes.  Neither changes
    the graph. *)
Theorem add_node_refusals h nid data cost priority Q V pi ntype :
  (forall n, py_len data = Ok n -> n <> _state_dim (self h) ->
     add_node nid data cost priority Q V pi ntype h = (Raise AssertionError, h)) /\
  (py_len data = Ok (_state_dim (self h)) -> nid ∈ Nx.nodes (G (self h)) ->
     add_node nid data cost priority Q V pi ntype h
     = (Ok tt, mkHeap (self h) (warned h ++ [NodeExists]))).
Proof.
  destruct h as [sg ws]. split.
  - intros n Hlen Hn. unfold add_node. m_simpl. rewrite Hlen. cbn.
    by rewrite bool_decide_eq_false_2.
  - intros Hlen Hin. unfold add_node. m_simpl. rewrite Hlen. cbn.
    rewrite bool_decide_eq_true_2 by done. cbn.
    apply has_node_elem_of in Hin. cbn in Hin. by rewrite Hin.
Qed.

Lemma add_node_refusals_witness :
  py_len (VVec [1; 2; 3]) = Ok 3%Z /\ 3%Z <> _state_dim one_node /\
  py_len (VVec [4; 4]) = Ok (_state_dim one_node) /\
  (0%Z ∈ Nx.nodes (G one_node)) /\
  plain_node 0 [1; 2; 3] (mkHeap one_node []) = (Raise AssertionError, mkHeap one_node []) /\
  plain_node 0 [4; 4] (mkHeap one_node []) = (Ok tt, mkHeap one_node [NodeExists]).
Proof.
  assert (py_len (VVec [1; 2; 3]) = Ok 3%Z) as H1 by reflexivity.
  assert (3%Z <> _state_dim (self (mkHeap one_node []))) as H2
    by (intros H; vm_compute in H; discriminate).
  assert (py_len (VVec [4; 4]) = Ok (_state_dim (self (mkHeap one_node []))))
    as H3 by reflexivity.
  assert (0%Z ∈ Nx.nodes (G (self (mkHeap one_node [])))) as H4
    by (apply elem_of_nodes; vm_compute; by eexists).
  split; [exact H1|]. split; [exact H2|]. split; [exact H3|]. split; [exact H4|].
  split.
  - exact (proj1 (add_node_refusals (mkHeap one_node []) 0 (VVec [1; 2; 3])
                    (VFloat 0) (VFloat 0) (VVec []) (VFloat 0) (VInt 0)
                    (VStr "simple")) 3%Z H1 H2).
  - exact (proj2 (add_node_refusals (mkHeap one_node []) 0 (VVec [4; 4])
                    (VFloat 0) (VFloat 0) (VVec []) (VFloat 0) (VInt 0)
                    (VStr "simple")) H3 H4).
Defined.

(** *** [add_edge] *)

Lemma add_edge_runs h source target duration reward phi traj :
  source <> target -> edge_exists (self h) source target = false ->
  0 <= duration -> ndim traj = 2%Z ->
  add_edge source target duration reward phi traj h =
    (Ok tt,
     mkHeap (mk (Nx.add_edge (G (self h)) source target
                   (<["duration" := VFloat duration]> (<["reward" := reward]>
                    (<["phi" := phi]> (<["traj" := traj]> ∅)))))
                (_state_dim (self h)))
            (warned h)).
Proof.
  intros Hne He Hd Ht. destruct h as [sg ws]. unfold add_edge. m_simpl.
  rewrite (bool_decide_eq_true_2 (0 <= duration)) by done. cbn.
  rewrite (bool_decide_eq_true_2 (ndim traj = 2%Z)) by done. cbn.
  rewrite decide_False by done. unfold edge_exists in He. by rewrite He.
Qed.

(** X8: an edge added between two different nodes that had none, with
    valid arguments, exists afterwards and its four attributes read back;
    [source] and [target], although in the allow-list of edge attributes,
    are not stored and raise [KeyError]; every other pair of nodes reads
    as before. *)
Theorem add_edge_then_gea h source target duration reward phi traj :
  source <> target -> edge_exists (self h) source target = false ->
  0 <= duration -> ndim traj = 2%Z ->
  (add_edge source target duration reward phi traj h).1 = Ok tt /\
  warned (add_edge source target duration reward phi traj h).2 = warned h /\
  (forall sg', sg' = self (add_edge source target duration reward phi traj h).2 ->
     edge_exists sg' source target = true /\
     gea sg' source target "duration" = Ok (VFloat duration) /\
     gea sg' source target "reward" = Ok reward /\
     gea sg' source target "phi" = Ok phi /\
     gea sg' source target "traj" = Ok traj /\
     gea sg' source target "source" = Raise KeyError /\
     gea sg' source target "target" = Raise KeyError /\
     (forall u v, (u, v) <> (source, target) ->
        edge_exists sg' u v = edge_exists (self h) u v) /\
     (forall u v a, (u, v) <> (source, target) ->
        gea sg' u v a = gea (self h) u v a)).
Proof.
  intros Hne He Hd Ht. rewrite add_edge_runs by done. cbn.
  split; [done|]. split; [done|]. intros sg' ->.
  destruct h as [sg ws]. cbn in *.
  unfold edge_exists in He. rewrite has_edge_false in He.
  assert (default ∅ (Nx.succ (G sg) !! source) !! target = None) as Hnone.
  { destruct (Nx.succ (G sg) !! source) as [nb|]; cbn; [by apply He|done]. }
  assert (forall a,
    gea (mk (Nx.add_edge (G sg) source target
               (<["duration" := VFloat duration]> (<["reward" := reward]>
                (<["phi" := phi]> (<["traj" := traj]> ∅))))) (_state_dim sg))
        source target a =
    if bool_decide (a ∈ _edge_attrs) then
      match (<["duration" := VFloat duration]> (<["reward" := reward]>
             (<["phi" := phi]> (<["traj" := traj]> (∅ : gmap string Value)))))
            !! a with
      | Some v => Ok v
      | None => Raise KeyError
      end
    else Raise AssertionError) as Hgea.
  { intros a. rewrite gea_cases. cbn -[Nx.add_edge].
    rewrite nx_add_edge_succ, decide_True by done.
    rewrite lookup_insert_eq, Hnone. cbn. by rewrite (right_id_L ∅ (∪)). }
  split.
  { unfold edge_exists. apply has_edge_true. cbn -[Nx.add_edge].
    rewrite nx_add_edge_succ, decide_True by done.
    eexists _, _. split; [done|]. apply lookup_insert_eq. }
  do 6 (split; [rewrite Hgea; vm_compute; reflexivity|]).
  assert (forall u v, (u, v) <> (source, target) ->
            (Nx.succ (Nx.add_edge (G sg) source target
               (<["duration" := VFloat duration]> (<["reward" := reward]>
                (<["phi" := phi]> (<["traj" := traj]> ∅))))) !! u
               ≫= fun nb => nb !! v)
            = (Nx.succ (G sg) !! u ≫= fun nb => nb !! v)) as Hframe.
  { intros u v Huv. rewrite nx_add_edge_succ.
    destruct (decide (u = source)) as [->|Hu].
    - cbn. rewrite lookup_insert_ne by congruence.
      by destruct (Nx.succ (G sg) !! source).
    - destruct (decide (u = target)) as [->|Hu']; [|done].
      by destruct (Nx.succ (G sg) !! target). }
  split.
  - intros u v Huv. specialize (Hframe u v Huv).
    unfold edge_exists, Nx.has_edge. cbn -[Nx.add_edge].
    destruct (Nx.succ (Nx.add_edge _ _ _ _) !! u) as [nb'|];
      destruct (Nx.succ (G sg) !! u) as [nb|]; cbn in Hframe;
      rewrite ?Hframe; try done.
    + rewrite <- Hframe. done.
  - intros u v a Huv. specialize (Hframe u v Huv).
    rewrite !gea_cases. cbn -[Nx.add_edge].
    destruct (bool_decide (a ∈ _edge_attrs)); [|done].
    destruct (Nx.succ (Nx.add_edge _ _ _ _) !! u) as [nb'|];
      destruct (Nx.succ (G sg) !! u) as [nb|]; cbn in Hframe;
      rewrite ?Hframe; try done.
    + rewrite <- Hframe. done.
Qed.

Lemma add_edge_then_gea_witness :
  1%Z <> 0%Z /\ edge_exists two_nodes 1 0 = false /\ 0 <= 1 /\
  ndim (VMat [[0; 0]; [1; 1]]) = 2%Z /\
  (plain_edge 1 0 4 (mkHeap two_nodes [])).1 = Ok tt.
Proof.
  assert (1%Z <> 0%Z) as Hne by lia.
  assert (edge_exists (self (mkHeap two_nodes [])) 1 0 = false) as He
    by (vm_compute; reflexivity).
  assert (0 <= 1) as Hd by lra.
  assert (ndim (VMat [[0; 0]; [1; 1]]) = 2%Z) as Ht by reflexivity.
  split; [exact Hne|]. split; [exact He|]. split; [exact Hd|]. split; [exact Ht|].
  exact (proj1 (add_edge_then_gea (mkHeap two_nodes []) 1 0 1 (VFloat 4)
                  (VVec [1; 0]) (VMat [[0; 0]; [1; 1]]) Hne He Hd Ht)).
Defined.

(** X9: [add_edge] does not ask that its end points be nodes.  An end
    point that is not yet in the graph becomes a node without any
    attribute, so that reading any attribute of it raises [KeyError];
    the nodes that were there keep their attributes. *)
Theorem add_edge_creates_bare_end_points h source target duration reward phi traj :
  Nx.consistent (G (self h)) ->
  source <> target -> edge_exists (self h) source target = false ->
  0 <= duration -> ndim traj = 2%Z ->
  forall sg', sg' = self (add_edge source target duration reward phi traj h).2 ->
    (forall n, n ∈ Nx.nodes (G sg') <->
               n ∈ Nx.nodes (G (self h)) \/ n = source \/ n = target) /\
    (forall n a, n ∈ Nx.nodes (G (self h)) -> gna sg' n a = gna (self h) n a) /\
    (forall n a, n = source \/ n = target -> n ∉ Nx.nodes (G (self h)) ->
                 a ∈ _node_attrs -> gna sg' n a = Raise KeyError).
Proof.
  intros Hc Hne He Hd Ht sg' ->. rewrite add_edge_runs by done.
  destruct h as [sg ws]. cbn -[Nx.add_edge] in *. split; [|split].
  - intros n. rewrite !elem_of_nodes, nx_add_edge_node by done.
    destruct (decide (n = source \/ n = target)) as [Hn|Hn].
    + split; [tauto|by eexists].
    + split; [tauto|]. intros [?|?]; [done|tauto].
  - intros n a Hn. rewrite !gna_cases. cbn -[Nx.add_edge].
    rewrite nx_add_edge_node by done. apply elem_of_nodes in Hn as [d Hd'].
    rewrite Hd'. by destruct (decide _).
  - intros n a Hn Hfresh Ha. rewrite gna_cases. cbn -[Nx.add_edge].
    rewrite nx_add_edge_node, decide_True by done.
    destruct (not_node_no_succ _ _ Hc Hfresh) as [_ ->]. cbn.
    by rewrite bool_decide_eq_true_2.
Qed.

Lemma add_edge_creates_bare_end_points_witness :
  Nx.consistent (G (self (mkHeap (mk Nx.empty 2) []))) /\
  gna (self (plain_edge 0 1 3 (mkHeap (mk Nx.empty 2) [])).2) 0 "data"
  = Raise KeyError.
Proof.
  assert (Nx.consistent (G (self (mkHeap (mk Nx.empty 2) [])))) as Hc.
  { split; [intros n; cbn; by rewrite !lookup_empty|intros u v; by cbn]. }
  assert (0%Z <> 1%Z) as Hne by lia.
  assert (edge_exists (self (mkHeap (mk Nx.empty 2) [])) 0 1 = false) as He
    by reflexivity.
  assert (0 <= 1) as Hd by lra.
  assert (ndim (VMat [[0; 0]; [1; 1]]) = 2%Z) as Ht by reflexivity.
  assert (0%Z ∉ Nx.nodes (G (self (mkHeap (mk Nx.empty 2) [])))) as Hfresh.
  { rewrite elem_of_nodes. cbn. rewrite lookup_empty. by intros [? ?]. }
  assert ("data"%string ∈ _node_attrs) as Ha by str_mem.
  split; [exact Hc|].
  exact (proj2 (proj2 (add_edge_creates_bare_end_points
                         (mkHeap (mk Nx.empty 2) []) 0 1 1 (VFloat 3) (VVec [1; 0])
                         (VMat [[0; 0]; [1; 1]]) Hc Hne He Hd Ht _ eq_refl))
           0%Z "data"%string (or_introl eq_refl) Hfresh Ha).
Defined.

(** *** [remove_node] and [remove_edge] *)

(** X10: removing a node of the graph removes it together with every edge
    from it and to it; the other nodes, their attributes and the edges
    among them stay.  Removing an identifier that is not a node raises
    [NetworkXError] and changes nothing. *)
Theorem remove_node_cascades h n :
  Nx.consistent (G (self h)) ->
  (n ∉ Nx.nodes (G (self h)) -> remove_node n h = (Raise NetworkXError, h)) /\
  (n ∈ Nx.nodes (G (self h)) ->
     (remove_node n h).1 = Ok tt /\
     warned (remove_node n h).2 = warned h /\
     forall sg', sg' = self (remove_node n h).2 ->
       (forall m, m ∈ Nx.nodes (G sg') <-> m ∈ Nx.nodes (G (self h)) /\ m <> n) /\
       (forall m a, m <> n -> gna sg' m a = gna (self h) m a) /\
       (forall u v, edge_exists sg' u v
                    = (edge_exists (self h) u v && bool_decide (u <> n)
                       && bool_decide (v <> n)))).
Proof.
  intros Hc. destruct h as [sg ws]. cbn in *. split.
  - intros Hn. unfold remove_node. m_simpl. unfold Nx.remove_node.
    rewrite elem_of_nodes in Hn.
    destruct (Nx.succ (G sg) !! n); [|done].
    destruct (Nx.node (G sg) !! n); [|done]. destruct Hn. by eexists.
  - intros Hn. unfold remove_node. m_simpl.
    destruct (Nx.remove_node (G sg) n) as [g'|] eqn:Hrm.
    + cbn. split; [done|]. split; [done|]. intros sg' ->. cbn.
      destruct (nx_remove_node_lookups _ _ _ Hrm) as [Hnode Hhas].
      split; [|split].
      * intros m. rewrite !elem_of_nodes, Hnode.
        case_decide; [subst; split; [by intros [? ?]|tauto]|tauto].
      * intros m a Hm. rewrite !gna_cases. cbn. by rewrite Hnode, decide_False.
      * intros u v. apply Hhas.
    + exfalso. unfold Nx.remove_node in Hrm.
      apply elem_of_nodes in Hn as [d Hd]. destruct Hc as [Hdom _].
      destruct (proj1 (Hdom n)) as [nb Hnb]; [by eexists|].
      by rewrite Hnb, Hd in Hrm.
Qed.

Lemma remove_node_cascades_witness :
  Nx.consistent (G (self (mkHeap two_nodes []))) /\
  (1%Z ∈ Nx.nodes (G two_nodes)) /\ (7%Z ∉ Nx.nodes (G two_nodes)) /\
  edge_exists (self (remove_node 1 (mkHeap two_nodes [])).2) 0 1 = false /\
  remove_node 7 (mkHeap two_nodes []) = (Raise NetworkXError, mkHeap two_nodes []).
Proof.
  assert (Nx.consistent (G (self (mkHeap two_nodes [])))) as Hc
    by exact two_nodes_consistent.
  assert (1%Z ∈ Nx.nodes (G (self (mkHeap two_nodes [])))) as Hin
    by (apply elem_of_nodes; vm_compute; by eexists).
  assert (7%Z ∉ Nx.nodes (G (self (mkHeap two_nodes [])))) as Hout.
  { rewrite elem_of_nodes. vm_compute. by intros [? ?]. }
  split; [exact Hc|]. split; [exact Hin|]. split; [exact Hout|].
  destruct (remove_node_cascades (mkHeap two_nodes []) 1 Hc) as [_ Hyes].
  destruct (remove_node_cascades (mkHeap two_nodes []) 7 Hc) as [Hno _].
  destruct (Hyes Hin) as (_ & _ & Hsg). destruct (Hsg _ eq_refl) as (_ & _ & Hedges).
  split; [|exact (Hno Hout)].
  rewrite Hedges. rewrite (bool_decide_eq_false_2 (1%Z <> 1%Z)) by tauto.
  apply andb_false_r.
Defined.

(** A removed edge that was there: the call returns, without a warning
    unless the end points coincide. *)
Lemma nx_add_remove_edge g u v attrs :
  is_Some (Nx.succ g !! u) -> is_Some (Nx.succ g !! v) ->
  Nx.has_edge g u v = false ->
  Nx.remove_edge (Nx.add_edge g u v attrs) u v = Ok g.
Proof.
  intros [nbu Hu] [nbv Hv] He. rewrite has_edge_false in He.
  specialize (He _ Hu). unfold Nx.remove_edge.
  rewrite nx_add_edge_succ, decide_True by done. rewrite Hu. cbn [default].
  rewrite lookup_insert_eq. f_equal. unfold Nx.add_edge, Nx.touch.
  rewrite Hu. rewrite Hv. rewrite Hu. cbn.
  rewrite insert_insert_eq, delete_insert_id by done.
  rewrite insert_id by done. by destruct g.
Qed.

(** X11: adding an edge between two different nodes of the graph that had
    none, and removing it again, gives back the graph exactly as it was,
    with no warning. *)
Theorem add_edge_remove_edge_round_trip h source target duration reward phi traj :
  Nx.consistent (G (self h)) ->
  source ∈ Nx.nodes (G (self h)) -> target ∈ Nx.nodes (G (self h)) ->
  source <> target -> edge_exists (self h) source target = false ->
  0 <= duration -> ndim traj = 2%Z ->
  remove_edge source target (add_edge source target duration reward phi traj h).2
  = (Ok tt, h).
Proof.
  intros [Hdom _] Hs Ht Hne He Hd Htr. rewrite add_edge_runs by done.
  destruct h as [[g sd] ws]. cbn -[Nx.add_edge] in *.
  unfold remove_edge. rewrite decide_False by done. m_simpl.
  rewrite nx_add_remove_edge; [done|..|done].
  - apply Hdom. by apply elem_of_nodes.
  - apply Hdom. by apply elem_of_nodes.
Qed.

Lemma add_edge_remove_edge_round_trip_witness :
  Nx.consistent (G two_nodes) /\
  (1%Z ∈ Nx.nodes (G two_nodes)) /\ (0%Z ∈ Nx.nodes (G two_nodes)) /\
  edge_exists two_nodes 1 0 = false /\
  remove_edge 1 0 (plain_edge 1 0 4 (mkHeap two_nodes [])).2
  = (Ok tt, mkHeap two_nodes []).
Proof.
  assert (1%Z ∈ Nx.nodes (G (self (mkHeap two_nodes [])))) as H1
    by (apply elem_of_nodes; vm_compute; by eexists).
  assert (0%Z ∈ Nx.nodes (G (self (mkHeap two_nodes [])))) as H0
    by (apply elem_of_nodes; vm_compute; by eexists).
  assert (edge_exists (self (mkHeap two_nodes [])) 1 0 = false) as He
    by (vm_compute; reflexivity).
  assert (1%Z <> 0%Z) as Hne by lia.
  assert (0 <= 1) as Hd by lra.
  assert (ndim (VMat [[0; 0]; [1; 1]]) = 2%Z) as Ht by reflexivity.
  split; [exact two_nodes_consistent|]. split; [exact H1|]. split; [exact H0|].
  split; [exact He|].
  exact (add_edge_remove_edge_round_trip (mkHeap two_nodes []) 1 0 1 (VFloat 4)
           (VVec [1; 0]) (VMat [[0; 0]; [1; 1]]) two_nodes_consistent H1 H0 Hne He
           Hd Ht).
Defined.

(** *** [all_edges], [out_edges] and [edge_exists] agree *)

Lemma elem_of_nx_edges g u v : (u, v) ∈ Nx.edges g <-> Nx.has_edge g u v = true.
Proof.
  unfold Nx.edges. rewrite list_elem_of_bind, has_edge_true. split.
  - intros ([u' nbrs] & Hin & Hsucc). apply elem_of_map_to_list in Hsucc.
    apply list_elem_of_fmap in Hin as (v' & [= -> ->] & Hv).
    apply list_elem_of_fmap in Hv as ([v'' d] & -> & Hd).
    apply elem_of_map_to_list in Hd. by exists nbrs, d.
  - intros (nbrs & d & Hu & Hv). exists (u, nbrs). split.
    + apply list_elem_of_fmap. exists v. split; [done|].
      apply list_elem_of_fmap. exists (v, d). split; [done|].
      by apply elem_of_map_to_list.
    + by apply elem_of_map_to_list.
Qed.

(** X12: [all_edges] lists each edge once, and lists exactly the pairs
    for which [edge_exists] holds; [out_edges(n)] raises [NetworkXError]
    when [n] is not a node and otherwise lists exactly the pairs [(n, v)]
    for which [edge_exists(n, v)] holds. *)
Theorem edge_listings_agree sg :
  Nx.consistent (G sg) ->
  NoDup (all_edges sg) /\
  (forall u v, (u, v) ∈ all_edges sg <-> edge_exists sg u v = true) /\
  (forall n, n ∉ Nx.nodes (G sg) -> out_edges sg n = Raise NetworkXError) /\
  (forall n, n ∈ Nx.nodes (G sg) ->
     exists es, out_edges sg n = Ok es /\ NoDup es /\
       forall u v, (u, v) ∈ es <-> u = n /\ edge_exists sg n v = true).
Proof.
  intros [Hdom _]. split; [|split; [|split]].
  - unfold all_edges, Nx.edges. apply NoDup_bind.
    + intros [u1 nb1] [u2 nb2] [a b] H1 H2 Hin1 Hin2.
      apply list_elem_of_fmap in Hin1 as (? & [= -> ->] & _).
      apply list_elem_of_fmap in Hin2 as (? & [= -> _] & _).
      apply elem_of_map_to_list in H1, H2. congruence.
    + intros [u nbrs] _. apply NoDup_fmap_2; [by intros ?? [= ->]|].
      apply NoDup_fst_map_to_list.
    + apply NoDup_map_to_list.
  - intros u v. apply elem_of_nx_edges.
  - intros n Hn. unfold out_edges, Nx.out_edges.
    rewrite <- has_node_elem_of in Hn. by destruct (Nx.has_node (G sg) n).
  - intros n Hn. unfold out_edges, Nx.out_edges.
    rewrite (proj2 (has_node_elem_of _ _) Hn).
    apply elem_of_nodes, Hdom in Hn as [nbrs Hnb].
    unfold getitem. rewrite Hnb. cbn. eexists. split; [done|]. split.
    + apply NoDup_fmap_2; [by intros ?? [= ->]|]. apply NoDup_fst_map_to_list.
    + intros u v. rewrite list_elem_of_fmap. unfold edge_exists.
      rewrite has_edge_true. split.
      * intros (v' & [= -> ->] & Hv).
        apply list_elem_of_fmap in Hv as ([v'' d] & -> & Hd).
        apply elem_of_map_to_list in Hd. split; [done|]. by exists nbrs, d.
      * intros (-> & nb & d & Hu & Hv). rewrite Hnb in Hu. injection Hu as <-.
        exists v. split; [done|]. apply list_elem_of_fmap. exists (v, d).
        split; [done|]. by apply elem_of_map_to_list.
Qed.

Lemma edge_listings_agree_witness :
  Nx.consistent (G two_nodes) /\ NoDup (all_edges two_nodes) /\
  ((0%Z, 1%Z) ∈ all_edges two_nodes <-> edge_exists two_nodes 0 1 = true).
Proof.
  split; [exact two_nodes_consistent|].
  destruct (edge_listings_agree two_nodes two_nodes_consistent) as (Hnd & Hiff & _).
  split; [exact Hnd|exact (Hiff 0%Z 1%Z)].
Defined.

(** X29: every graph built from the empty graph by [add_node],
    [add_edge], [remove_edge], [sna] and [sea] has no edge from a node to
    itself, and both ends of each of its edges are nodes. *)
Theorem built_graphs_are_sound sg :
  reachable sg ->
  (forall n, edge_exists sg n n = false) /\
  (forall u v, edge_exists sg u v = true ->
               u ∈ Nx.nodes (G sg) /\ v ∈ Nx.nodes (G sg)).
Proof.
  intros Hsg. split; [by apply reachable_no_self_loop|].
  destruct (reachable_consistent sg Hsg) as [Hdom Hedge].
  intros u v He. rewrite !elem_of_nodes. split; [|by apply (Hedge u v)].
  apply Hdom. apply has_edge_true in He as (nbrs & _ & Hu & _). by eexists.
Qed.

Lemma built_graphs_are_sound_witness :
  reachable one_node /\ forall n, edge_exists one_node n n = false.
Proof.
  split; [exact one_node_reachable|].
  exact (proj1 (built_graphs_are_sound one_node one_node_reachable)).
Defined.

End StructureFacts.

(* ================================================================== *)
(** ** Further facts about the state graph: neighbour queries *)

Module QueryFacts.
Import StateGraph Fixtures PyFacts StateGraphFacts.

Lemma py_filter_total {A} (p : A -> Outcome bool) l :
  (forall x, x ∈ l -> exists b, p x = Ok b) -> exists r, py_filter p l = Ok r.
Proof.
  induction l as [|x l IH]; intros Hp; cbn; [by eexists|].
  destruct (Hp x) as [b ->]; [left|]. cbn.
  destruct IH as [r ->]; [intros; apply Hp; by right|]. cbn. by eexists.
Qed.

Lemma py_filter_inv {A} (p : A -> Outcome bool) l r :
  py_filter p l = Ok r ->
  r `sublist_of` l /\ forall x, x ∈ r <-> x ∈ l /\ p x = Ok true.
Proof.
  revert r. induction l as [|x l IH]; intros r; cbn.
  - intros [= <-]. split; [done|]. intros x. split; [by intros ?%elem_of_nil|].
    by intros [?%elem_of_nil _].
  - destruct (p x) as [b|] eqn:Hb; cbn; [|done].
    destruct (py_filter p l) as [ys|]; cbn; [|done].
    destruct (IH ys eq_refl) as [Hsub Hiff]. intros [= <-]. destruct b.
    + split; [by apply sublist_skip|]. intros y. rewrite !elem_of_cons, Hiff.
      split; [intros [->|[? ?]]; by eauto|]. intros [[->|?] ?]; by eauto.
    + split; [by apply sublist_cons|]. intros y. rewrite elem_of_cons, Hiff.
      split; [intros [? ?]; by eauto|]. intros [[->|?] ?]; [congruence|done].
Qed.

Lemma eud_planar x1 y1 u x2 y2 w :
  eud (VVec (x1 :: y1 :: u)) (VVec (x2 :: y2 :: w))
  = Ok (sqrt ((x1 - x2) ^ 2 + (y1 - y2) ^ 2)).
Proof. reflexivity. Qed.

Lemma sqrt_sum_sq_nonneg a b : 0 <= sqrt (a ^ 2 + b ^ 2).
Proof. apply sqrt_pos. Qed.

(** The test both range queries apply to a node. *)
Lemma within_planar sg x y w distance n :
  planar sg -> n ∈ Nx.nodes (G sg) ->
  exists x1 y1 u,
    gna sg n "data" = Ok (VVec (x1 :: y1 :: u)) /\
    (v ← gna sg n "data"; d ← eud v (VVec (x :: y :: w));
     Ok (bool_decide (d <= distance)))
    = Ok (bool_decide (sqrt ((x1 - x) ^ 2 + (y1 - y) ^ 2) <= distance)).
Proof.
  intros Hdata Hn. destruct (gna_data_present sg n Hdata Hn) as (x1 & y1 & u & Hv).
  exists x1, y1, u. split; [done|]. by rewrite Hv.
Qed.

(** X13: in a graph whose nodes all carry a planar position,
    [find_neighbors_from_pose] returns exactly the nodes whose planar
    distance to the given position is at most [distance], each once: a
    node at that very position is included for every [distance >= 0], and
    nothing is returned for a negative [distance]. *)
Theorem find_neighbors_from_pose_selects sg x y w distance :
  planar sg ->
  exists res,
    find_neighbors_from_pose sg (VVec (x :: y :: w)) distance = Ok res /\
    NoDup res /\
    (forall n, n ∈ res <->
       exists x1 y1 u, gna sg n "data" = Ok (VVec (x1 :: y1 :: u)) /\
                       sqrt ((x1 - x) ^ 2 + (y1 - y) ^ 2) <= distance) /\
    (forall n u, gna sg n "data" = Ok (VVec (x :: y :: u)) -> 0 <= distance ->
                 n ∈ res) /\
    (distance < 0 -> res = []).
Proof.
  intros Hdata. unfold find_neighbors_from_pose.
  destruct (py_filter_total
              (fun n => v ← gna sg n "data"; d ← eud v (VVec (x :: y :: w));
                        Ok (bool_decide (d <= distance)))
              (Nx.nodes (G sg))) as [res Hres].
  { intros n Hn. destruct (within_planar sg x y w distance n Hdata Hn)
      as (? & ? & ? & _ & ->). by eexists. }
  exists res. split; [done|].
  destruct (py_filter_inv _ _ _ Hres) as [Hsub Hiff].
  split; [by eapply sublist_NoDup; [apply NoDup_nodes|]|].
  assert (forall n, n ∈ res <->
            exists x1 y1 u, gna sg n "data" = Ok (VVec (x1 :: y1 :: u)) /\
                            sqrt ((x1 - x) ^ 2 + (y1 - y) ^ 2) <= distance) as Hsel.
  { intros n. rewrite Hiff. split.
    - intros [Hn Htest].
      destruct (within_planar sg x y w distance n Hdata Hn)
        as (x1 & y1 & u & Hv & Heq).
      rewrite Heq in Htest. injection Htest as Htest.
      apply bool_decide_eq_true in Htest. by exists x1, y1, u.
    - intros (x1 & y1 & u & Hv & Hle). split; [by eapply gna_Ok_node|].
      rewrite Hv. cbn. by rewrite bool_decide_eq_true_2. }
  split; [done|]. split.
  - intros n u Hv Hd. apply Hsel. exists x, y, u. split; [done|].
    replace ((x - x) ^ 2 + (y - y) ^ 2) with 0 by ring. by rewrite sqrt_0.
  - intros Hneg. destruct res as [|n res']; [done|]. exfalso.
    destruct (proj1 (Hsel n)) as (x1 & y1 & u & _ & Hle); [left|].
    pose proof (sqrt_sum_sq_nonneg (x1 - x) (y1 - y)). lra.
Qed.

Lemma three_nodes_planar : planar three_nodes.
Proof. exact three_nodes_have_data. Qed.

Lemma find_neighbors_from_pose_selects_witness :
  planar three_nodes /\
  exists res, find_neighbors_from_pose three_nodes (VVec [0; 0; 0]) 1 = Ok res /\
              NoDup res /\ 0%Z ∈ res.
Proof.
  split; [exact three_nodes_planar|].
  destruct (find_neighbors_from_pose_selects three_nodes 0 0 [0] 1 three_nodes_planar)
    as (res & Hres & Hnd & _ & Hat & _).
  exists res. split; [exact Hres|]. split; [exact Hnd|].
  apply (Hat 0%Z [0]); [vm_compute; reflexivity|lra].
Defined.

(** X14: the range query by identifier returns the nodes the range query
    by position returns for that node's own position, less the node
    itself. *)
Theorem find_neighbors_range_is_pose_less_self sg nid distance :
  planar sg -> nid ∈ Nx.nodes (G sg) ->
  exists cn near around,
    gna sg nid "data" = Ok cn /\
    find_neighbors_from_pose sg cn distance = Ok near /\
    find_neighbors_range sg nid distance = Ok around /\
    forall n, n ∈ around <-> n ∈ near /\ n <> nid.
Proof.
  intros Hdata Hnid.
  destruct (gna_data_present sg nid Hdata Hnid) as (x & y & w & Hcn).
  unfold find_neighbors_range, find_neighbors_from_pose. rewrite Hcn. cbn.
  set (p := fun n => v ← gna sg n "data"; d ← eud v (VVec (x :: y :: w));
                     Ok (bool_decide (d <= distance))).
  assert (forall n, n ∈ Nx.nodes (G sg) -> exists b, p n = Ok b) as Htot.
  { intros n Hn. destruct (within_planar sg x y w distance n Hdata Hn)
      as (? & ? & ? & _ & Heq). unfold p. rewrite Heq. by eexists. }
  destruct (py_filter_total p (Nx.nodes (G sg)) Htot) as [near Hnear].
  destruct (py_filter_total p (elements (serch_set sg nid))) as [around Haround].
  { intros n Hn. apply Htot. by apply elem_of_serch_set in Hn as [? _]. }
  exists (VVec (x :: y :: w)), near, around.
  split; [done|]. split; [done|]. split; [done|].
  destruct (py_filter_inv _ _ _ Hnear) as [_ Hn1].
  destruct (py_filter_inv _ _ _ Haround) as [_ Hn2].
  intros n. rewrite Hn1, Hn2, elem_of_serch_set. tauto.
Qed.

Lemma find_neighbors_range_is_pose_less_self_witness :
  planar three_nodes /\ (0%Z ∈ Nx.nodes (G three_nodes)) /\
  exists around, find_neighbors_range three_nodes 0 1 = Ok around /\ 0%Z ∉ around.
Proof.
  assert (0%Z ∈ Nx.nodes (G three_nodes)) as Hnid
    by (apply elem_of_nodes; vm_compute; by eexists).
  split; [exact three_nodes_planar|]. split; [exact Hnid|].
  destruct (find_neighbors_range_is_pose_less_self three_nodes 0 1
              three_nodes_planar Hnid) as (cn & near & around & _ & _ & Hr & Hiff).
  exists around. split; [exact Hr|]. intros Hin. apply Hiff in Hin as [_ Hne].
  by apply Hne.
Defined.

(** The nearest-first list behind [find_neighbors_k] does not depend on
    [k]. *)
Lemma find_neighbors_k_slices o sg nid :
  planar sg -> nid ∈ Nx.nodes (G sg) ->
  exists ranked : list (Z * R),
    forall k, find_neighbors_k o sg nid k = Ok (slice_to ranked k).*1.
Proof.
  intros Hdata Hnid. unfold find_neighbors_k.
  destruct (gna_data_present sg nid Hdata Hnid) as (x2 & y2 & w & ->). cbn.
  destruct (for_each_Forall2
              (fun n => v ← gna sg n "data"; d ← eud v (VVec (x2 :: y2 :: w));
                        Ok (n, d))
              (fun _ _ => True) (iter o (elements (serch_set sg nid))))
    as (items & -> & _); [|by eexists].
  intros n Hn. apply elem_of_search in Hn as [Hn _].
  destruct (gna_data_present sg n Hdata Hn) as (x1 & y1 & u & ->).
  by eexists.
Qed.

(** X15: [find_neighbors_k] outside the expected range of [k], whatever
    the order [o] in which the set of the other nodes is iterated.  With
    [all] the other nodes nearest first: [k = 0] gives the empty list, a
    [k] of at least the length of [all] gives [all], and a negative [k]
    gives [all] without its last [-k] entries, the farthest nodes. *)
Theorem find_neighbors_k_out_of_range o sg nid :
  planar sg -> nid ∈ Nx.nodes (G sg) ->
  exists all : list Z,
    S (length all) = length (Nx.nodes (G sg)) /\
    find_neighbors_k o sg nid 0 = Ok [] /\
    (forall k, (Z.of_nat (length all) <= k)%Z ->
       find_neighbors_k o sg nid k = Ok all) /\
    (forall k, (k < 0)%Z ->
       find_neighbors_k o sg nid k = Ok (take (length all - Z.to_nat (- k)) all)).
Proof.
  intros Hdata Hnid.
  destruct (find_neighbors_k_slices o sg nid Hdata Hnid) as [ranked Hk].
  exists ranked.*1. split; [|split; [|split]].
  - pose proof (Hk (Z.of_nat (length (Nx.nodes (G sg))))) as Hall.
    destruct (find_neighbors_k_inv o sg nid _ _ (Nat2Z.is_nonneg _) Hall)
      as (ranked' & _ & Hfull & Hnd & Hmem & _).
    specialize (Hfull ltac:(lia)).
    assert (ranked'.*1 ≡ₚ elements (serch_set sg nid)) as Hperm.
    { apply NoDup_Permutation; [done|apply NoDup_elements|].
      intros n. by rewrite Hmem, elem_of_serch_set. }
    pose proof (length_serch_set sg nid Hnid) as Hsize.
    rewrite <- Hperm, <- Hfull in Hsize.
    rewrite slice_to_nonneg, fmap_take, Nat2Z.id, length_take in Hsize by lia.
    rewrite length_fmap in *. lia.
  - by rewrite Hk.
  - intros k Hge. rewrite Hk, slice_to_nonneg by lia.
    rewrite take_ge; [done|]. rewrite length_fmap in Hge. lia.
  - intros k Hneg. rewrite Hk. unfold slice_to. rewrite decide_False by lia.
    by rewrite fmap_take, !length_fmap.
Qed.

Lemma find_neighbors_k_out_of_range_witness :
  planar three_nodes /\ (0%Z ∈ Nx.nodes (G three_nodes)) /\
  find_neighbors_k ascending three_nodes 0 0 = Ok [].
Proof.
  assert (0%Z ∈ Nx.nodes (G three_nodes)) as Hnid
    by (apply elem_of_nodes; vm_compute; by eexists).
  split; [exact three_nodes_planar|]. split; [exact Hnid|].
  destruct (find_neighbors_k_out_of_range ascending three_nodes 0
              three_nodes_planar Hnid)
    as (all & _ & H0 & _).
  exact H0.
Defined.

End QueryFacts.

(* ================================================================== *)
(** ** Further facts about the PolicyWalk proposal *)

Module WalkExtras.
Import PolicyWalk PolicyWalkFacts.

Lemma randint_in_range k high :
  (0 < high)%Z -> exists i, randint k high = Ok i /\ (Z.of_nat i < high)%Z.
Proof.
  intros Hh. unfold randint. rewrite decide_False by lia. eexists. split; [done|].
  pose proof (Z.mod_pos_bound (Z.of_nat k) high Hh). lia.
Qed.

Lemma lookup_in_dim (loc : list R) (dim : Z) i :
  (dim <= Z.of_nat (length loc))%Z -> (Z.of_nat i < dim)%Z ->
  exists x, loc !! i = Some x.
Proof.
  intros Hd Hi. destruct (loc !! i) as [x|] eqn:E; [by eexists|].
  apply lookup_ge_None in E. lia.
Qed.

Lemma lookup_in_dim_int (loc : list Z) (dim : Z) i :
  (dim <= Z.of_nat (length loc))%Z -> (Z.of_nat i < dim)%Z ->
  exists x, loc !! i = Some x.
Proof.
  intros Hd Hi. destruct (loc !! i) as [x|] eqn:E; [by eexists|].
  apply lookup_ge_None in E. lia.
Qed.

(** X16: the unbounded proposal accepts its first draw: it returns after
    one turn of the loop, with no test on the result.  On a vector of
    floats one coordinate has moved by [-delta] or [delta]; on a vector
    of integers that coordinate holds the sum with its fraction
    dropped. *)
Theorem unbounded_walk_takes_first_draw self c k rest :
  bounded self = false -> (0 < dim self)%Z ->
  (forall loc : list R,
     (dim self <= Z.of_nat (length loc))%Z ->
     exists i x d,
       loc !! i = Some x /\ (d = - delta self \/ d = delta self) /\
       Base.PolicyWalkProposal.__call__ self ((c, k) :: rest) loc
       = Some (Ok (<[i := x + d]> loc))) /\
  (forall loc : list Z,
     (dim self <= Z.of_nat (length loc))%Z ->
     exists i x d,
       loc !! i = Some x /\ (d = - delta self \/ d = delta self) /\
       Base.PolicyWalkProposal.__call__int self ((c, k) :: rest) loc
       = Some (Ok (<[i := trunc (IZR x + d)]> loc))).
Proof.
  intros Hb Hdim.
  destruct (randint_in_range k (dim self) Hdim) as (i & Hi & Hlt).
  assert (choice c [- delta self; delta self] = - delta self \/
          choice c [- delta self; delta self] = delta self) as Hd
    by (apply two_steps, choice_elem_of; done).
  split; intros loc Hlen.
  - destruct (lookup_in_dim loc (dim self) i Hlen Hlt) as [x Hx].
    exists i, x, (choice c [- delta self; delta self]).
    split; [done|]. split; [done|].
    unfold Base.PolicyWalkProposal.__call__. cbn. by rewrite Hi, Hx, Hb.
  - destruct (lookup_in_dim_int loc (dim self) i Hlen Hlt) as [x Hx].
    exists i, x, (choice c [- delta self; delta self]).
    split; [done|]. split; [done|].
    unfold Base.PolicyWalkProposal.__call__int. cbn. by rewrite Hi, Hx, Hb.
Qed.

(** With [delta = 1/2] the integer vector [[1]] comes back as it was:
    [1 + 1/2] is stored as [1]. *)
Lemma free_walker_int_run :
  Base.PolicyWalkProposal.__call__int Fixtures.free_walker [(1, 0)%nat] [1%Z]
  = Some (Ok [1%Z]).
Proof.
  unfold Base.PolicyWalkProposal.__call__int. cbn.
  assert (randint 0 1 = Ok 0%nat) as -> by (vm_compute; reflexivity). cbn.
  rewrite (trunc_unit _ 1%Z) by lra. reflexivity.
Qed.

Lemma unbounded_walk_takes_first_draw_witness :
  bounded Fixtures.free_walker = false /\
  (0 < dim Fixtures.free_walker)%Z /\
  (dim Fixtures.free_walker <= Z.of_nat (length [1]))%Z /\
  (exists i x d,
     [1] !! i = Some x /\
     Base.PolicyWalkProposal.__call__ Fixtures.free_walker [(1, 0)%nat] [1]
     = Some (Ok (<[i := x + d]> [1]))) /\
  (exists i x d,
     [1%Z] !! i = Some x /\
     Base.PolicyWalkProposal.__call__int Fixtures.free_walker [(1, 0)%nat] [1%Z]
     = Some (Ok (<[i := trunc (IZR x + d)]> [1%Z]))) /\
  Base.PolicyWalkProposal.__call__int Fixtures.free_walker [(1, 0)%nat] [1%Z]
  = Some (Ok [1%Z]).
Proof.
  assert (0 < dim Fixtures.free_walker)%Z as Hdim by (cbn; lia).
  assert (dim Fixtures.free_walker <= Z.of_nat (length [1]))%Z as Hlen
    by (cbn; lia).
  assert (dim Fixtures.free_walker <= Z.of_nat (length [1%Z]))%Z as Hlen'
    by (cbn; lia).
  split; [reflexivity|]. split; [exact Hdim|]. split; [exact Hlen|].
  destruct (unbounded_walk_takes_first_draw Fixtures.free_walker 1 0 []
              eq_refl Hdim) as [Hfloat Hint].
  destruct (Hfloat [1] Hlen) as (i & x & d & Hx & _ & Hrun).
  destruct (Hint [1%Z] Hlen') as (j & z & e & Hz & _ & Hrun').
  split; [exists i, x, d; split; [exact Hx|exact Hrun]|].
  split; [exists j, z, e; split; [exact Hz|exact Hrun']|].
  exact free_walker_int_run.
Defined.

(** X17: the two errors of the proposal.  With [dim <= 0] the first turn
    raises [ValueError] in [randint]; with [dim] larger than the vector, a
    draw of an index beyond its end raises [IndexError].  Both hold
    whether the proposal is bounded or not, in either file. *)
Theorem walk_errors self c k rest loc :
  ((dim self <= 0)%Z ->
     Base.PolicyWalkProposal.__call__ self ((c, k) :: rest) loc
       = Some (Raise ValueError) /\
     GraphBirl.PolicyWalkProposal.__call__ self ((c, k) :: rest) loc
       = Some (Raise ValueError)) /\
  ((0 < dim self)%Z -> (Z.of_nat (length loc) <= Z.of_nat k mod dim self)%Z ->
     Base.PolicyWalkProposal.__call__ self ((c, k) :: rest) loc
       = Some (Raise IndexError) /\
     GraphBirl.PolicyWalkProposal.__call__ self ((c, k) :: rest) loc
       = Some (Raise IndexError)).
Proof.
  unfold Base.PolicyWalkProposal.__call__, GraphBirl.PolicyWalkProposal.__call__.
  split.
  - intros Hd. cbn. unfold randint. by rewrite decide_True.
  - intros Hd Hk. cbn. unfold randint. rewrite decide_False by lia.
    rewrite (proj2 (lookup_ge_None loc _)) by lia. done.
Qed.

Lemma walk_errors_witness :
  (dim (mkProposal 0 1 true) <= 0)%Z /\
  Base.PolicyWalkProposal.__call__ (mkProposal 0 1 true) [(0, 0)%nat] [0]
    = Some (Raise ValueError) /\
  (0 < dim (mkProposal 2 1 true))%Z /\
  (Z.of_nat (length [0]) <= Z.of_nat 1 mod dim (mkProposal 2 1 true))%Z /\
  Base.PolicyWalkProposal.__call__ (mkProposal 2 1 true) [(0, 1)%nat] [0]
    = Some (Raise IndexError).
Proof.
  assert (dim (mkProposal 0 1 true) <= 0)%Z as H0 by (cbn; lia).
  assert (0 < dim (mkProposal 2 1 true))%Z as H1 by (cbn; lia).
  assert (Z.of_nat (length [0]) <= Z.of_nat 1 mod dim (mkProposal 2 1 true))%Z
    as H2 by (vm_compute; discriminate).
  split; [exact H0|].
  split; [exact (proj1 (proj1 (walk_errors (mkProposal 0 1 true) 0 0 [] [0]) H0))|].
  split; [exact H1|]. split; [exact H2|].
  exact (proj1 (proj2 (walk_errors (mkProposal 2 1 true) 0 1 [] [0]) H1 H2)).
Defined.

(** X18: a bounded proposal of birl/base.py whose step exceeds [2], the
    width of the interval, rejects every draw: started inside [[-1, 1]],
    it is still looping after any number of draws. *)
Theorem bounded_walk_with_large_step_loops self draws loc :
  bounded self = true -> Forall (fun x => -1 <= x <= 1) loc -> 2 < delta self ->
  (0 < dim self)%Z -> (dim self <= Z.of_nat (length loc))%Z ->
  Base.PolicyWalkProposal.__call__ self draws loc = None.
Proof.
  intros Hb Hloc Hdelta Hdim Hlen. unfold Base.PolicyWalkProposal.__call__.
  induction draws as [|[c k] rest IH]; cbn [loop]; [done|].
  destruct (randint_in_range k (dim self) Hdim) as (i & -> & Hlt).
  destruct (lookup_in_dim loc (dim self) i Hlen Hlt) as [x Hx]. rewrite Hx, Hb.
  pose proof (Forall_lookup_1 _ _ _ _ Hloc Hx) as Hbx. cbn in Hbx.
  pose proof (choice_elem_of c [- delta self; delta self] ltac:(done)) as Hd.
  rewrite decide_False; [exact IH|].
  apply elem_of_cons in Hd as [->|Hd]; [lra|].
  apply elem_of_cons in Hd as [->|Hd]; [lra|]. by apply elem_of_nil in Hd.
Qed.

Lemma bounded_walk_with_large_step_loops_witness :
  bounded Fixtures.stuck_walker = true /\ Forall (fun x => -1 <= x <= 1) [0] /\
  2 < delta Fixtures.stuck_walker /\
  Base.PolicyWalkProposal.__call__ Fixtures.stuck_walker
    [(0, 0)%nat; (1, 0)%nat; (1, 5)%nat] [0] = None.
Proof.
  assert (Forall (fun x => -1 <= x <= 1) [0]) as Hloc by (repeat constructor; lra).
  assert (2 < delta Fixtures.stuck_walker) as Hd by (cbn; lra).
  assert (0 < dim Fixtures.stuck_walker)%Z as Hdim by (cbn; lia).
  assert (dim Fixtures.stuck_walker <= Z.of_nat (length [0]))%Z as Hlen
    by (cbn; lia).
  split; [reflexivity|]. split; [exact Hloc|]. split; [exact Hd|].
  exact (bounded_walk_with_large_step_loops Fixtures.stuck_walker _ [0] eq_refl
           Hloc Hd Hdim Hlen).
Defined.

(** X19: a bounded proposal of birl/base.py with a step in [[0, 1]] can
    always move: from every vector inside [[-1, 1]] some single draw makes
    it return. *)
Theorem bounded_walk_can_move self loc :
  bounded self = true -> (0 < dim self)%Z -> loc <> [] ->
  Forall (fun x => -1 <= x <= 1) loc -> 0 <= delta self <= 1 ->
  exists c k res,
    Base.PolicyWalkProposal.__call__ self [(c, k)] loc = Some (Ok res).
Proof.
  intros Hb Hdim Hne Hloc Hdelta. destruct loc as [|x l]; [done|].
  apply Forall_cons in Hloc as [Hx _].
  assert (randint 0 (dim self) = Ok 0%nat) as Hi.
  { unfold randint. rewrite decide_False by lia. by rewrite Z.mod_0_l by lia. }
  destruct (decide (x + delta self <= 1)) as [Hup|Hup].
  - exists 1%nat, 0%nat. eexists. unfold Base.PolicyWalkProposal.__call__. cbn.
    rewrite Hi, Hb. cbn. rewrite decide_True by lra. reflexivity.
  - exists 0%nat, 0%nat. eexists. unfold Base.PolicyWalkProposal.__call__. cbn.
    rewrite Hi, Hb. cbn. rewrite decide_True by lra. reflexivity.
Qed.

Lemma bounded_walk_can_move_witness :
  bounded Fixtures.walker = true /\ (0 < dim Fixtures.walker)%Z /\
  [0; 0] <> [] /\ Forall (fun x => -1 <= x <= 1) [0; 0] /\
  0 <= delta Fixtures.walker <= 1 /\
  exists c k res,
    Base.PolicyWalkProposal.__call__ Fixtures.walker [(c, k)] [0; 0]
    = Some (Ok res).
Proof.
  assert (0 < dim Fixtures.walker)%Z as Hdim by (cbn; lia).
  assert ([0; 0] <> ([] : list R)) as Hne by discriminate.
  assert (Forall (fun x => -1 <= x <= 1) [0; 0]) as Hloc
    by (repeat constructor; lra).
  assert (0 <= delta Fixtures.walker <= 1) as Hd by (cbn; lra).
  split; [reflexivity|]. split; [exact Hdim|]. split; [exact Hne|].
  split; [exact Hloc|]. split; [exact Hd|].
  exact (bounded_walk_can_move Fixtures.walker [0; 0] eq_refl Hdim Hne Hloc Hd).
Defined.

(** X20: in graph_birl.py the draw of the zero step is always accepted
    by a bounded proposal started inside [[-1, 1]], whatever [delta]: the
    call returns its argument unchanged. *)
Theorem zero_step_returns_input self k rest loc :
  bounded self = true -> Forall (fun x => -1 <= x <= 1) loc ->
  (0 < dim self)%Z -> (dim self <= Z.of_nat (length loc))%Z ->
  GraphBirl.PolicyWalkProposal.__call__ self ((1%nat, k) :: rest) loc
  = Some (Ok loc).
Proof.
  intros Hb Hloc Hdim Hlen. unfold GraphBirl.PolicyWalkProposal.__call__.
  cbn [loop].
  destruct (randint_in_range k (dim self) Hdim) as (i & -> & Hlt).
  destruct (lookup_in_dim loc (dim self) i Hlen Hlt) as [x Hx]. rewrite Hx, Hb.
  pose proof (Forall_lookup_1 _ _ _ _ Hloc Hx) as Hbx. cbn in Hbx.
  change (choice 1 [- delta self; 0; delta self]) with 0.
  rewrite decide_True by lra. rewrite Rplus_0_r. by rewrite list_insert_id.
Qed.

Lemma zero_step_returns_input_witness :
  bounded Fixtures.stuck_walker = true /\ Forall (fun x => -1 <= x <= 1) [0] /\
  GraphBirl.PolicyWalkProposal.__call__ Fixtures.stuck_walker [(1, 0)%nat] [0]
  = Some (Ok [0]).
Proof.
  assert (Forall (fun x => -1 <= x <= 1) [0]) as Hloc by (repeat constructor; lra).
  assert (0 < dim Fixtures.stuck_walker)%Z as Hdim by (cbn; lia).
  assert (dim Fixtures.stuck_walker <= Z.of_nat (length [0]))%Z as Hlen
    by (cbn; lia).
  split; [reflexivity|]. split; [exact Hloc|].
  exact (zero_step_returns_input Fixtures.stuck_walker 0 [] [0] eq_refl Hloc
           Hdim Hlen).
Defined.

End WalkExtras.

(* ================================================================== *)
(** ** Further facts about the reward priors of birl/base.py *)

Module PriorExtras.
Import Base PriorFacts.

Lemma map_div_scaled {A} (f : A -> R) (c : R) (l : list A) :
  c <> 0 -> np_sum (map f l) <> 0 ->
  map (fun x => x / np_sum (map (fun a => f a * c) l)) (map (fun a => f a * c) l)
  = map (fun a => f a / np_sum (map f l)) l.
Proof.
  intros Hc Hs. rewrite np_sum_scale, map_map. apply map_ext. intros a. by field.
Qed.

Lemma div_le_1 x s : 0 < s -> x <= s -> x / s <= 1.
Proof.
  intros Hs Hx. apply (Rmult_le_reg_r s); [done|].
  unfold Rdiv. rewrite Rmult_assoc, Rinv_l by lra. lra.
Qed.

Lemma np_sum_ge_entry {A} (f : A -> R) (l : list A) a :
  (forall x, 0 < f x) -> a ∈ l -> f a <= np_sum (map f l).
Proof.
  intros Hf. induction l as [|y l IH]; intros Hin; [by apply elem_of_nil in Hin|].
  cbn [map]. rewrite np_sum_cons.
  assert (0 <= np_sum (map f l)) as Hl.
  { clear -Hf. induction l as [|z l IH]; cbn [map]; rewrite ?np_sum_nil, ?np_sum_cons;
      [lra|]. specialize (Hf z). lra. }
  apply elem_of_cons in Hin as [->|Hin]; [lra|].
  specialize (IH Hin). specialize (Hf y). lra.
Qed.

Lemma normalised_entries {A} (f : A -> R) (l : list A) :
  (forall x, 0 < f x) ->
  Forall (fun p => 0 < p <= 1) (map (fun a => f a / np_sum (map f l)) l).
Proof.
  intros Hf. apply Forall_forall. intros p Hp.
  apply list_elem_of_In, in_map_iff in Hp as (a & <- & Ha).
  apply list_elem_of_In in Ha.
  assert (0 < np_sum (map f l)) as Hs
    by (apply np_sum_pos; [by destruct l; [apply elem_of_nil in Ha|]|done]).
  pose proof (np_sum_ge_entry f l a Hf Ha) as Hle. specialize (Hf a). split.
  - by apply Rdiv_lt_0_compat.
  - by apply div_le_1.
Qed.

(** X21: normalising cancels the constant factor of the densities.  For
    [sigma] other than zero the Gaussian prior of birl/base.py is
    [exp(-r_i^2 / (2 sigma^2))] over the sum of these terms, and the
    Laplacian prior is [exp(-|r_i| / (2 sigma))] over the sum of these
    terms; the uniform prior is [1 / n] in each of its [n] places.  So
    every entry lies in [(0, 1]]. *)
Theorem base_priors_closed_form (sigma : R) (r : list R) :
  sigma <> 0 ->
  UniformRewardPrior.__call__ r = replicate (length r) (1 / INR (length r)) /\
  (r <> [] ->
   GaussianRewardPrior.__call__ sigma r
   = map (fun x => exp ((- (x ^ 2)) / (2 * sigma ^ 2))
                   / np_sum (map (fun y => exp ((- (y ^ 2)) / (2 * sigma ^ 2))) r))
         r /\
   LaplacianRewardPrior.__call__ sigma r
   = map (fun x => exp ((- Rabs x) / (2 * sigma))
                   / np_sum (map (fun y => exp ((- Rabs y) / (2 * sigma))) r))
         r /\
   Forall (fun p => 0 < p <= 1) (UniformRewardPrior.__call__ r) /\
   Forall (fun p => 0 < p <= 1) (GaussianRewardPrior.__call__ sigma r) /\
   Forall (fun p => 0 < p <= 1) (LaplacianRewardPrior.__call__ sigma r)).
Proof.
  intros Hsigma.
  assert (UniformRewardPrior.__call__ r = replicate (length r) (1 / INR (length r)))
    as Hunif.
  { unfold UniformRewardPrior.__call__. cbn zeta. rewrite np_sum_ones.
    generalize (INR (length r)). intros s.
    induction (length r) as [|n IH]; cbn; [done|]. by rewrite IH. }
  split; [exact Hunif|]. intros Hr.
  assert (GaussianRewardPrior.__call__ sigma r
          = map (fun x => exp ((- (x ^ 2)) / (2 * sigma ^ 2))
                   / np_sum (map (fun y => exp ((- (y ^ 2)) / (2 * sigma ^ 2))) r))
                r) as Hgauss.
  { unfold GaussianRewardPrior.__call__. cbn zeta.
    assert (0 < sqrt (2 * PI)) as Hpi
      by (apply sqrt_lt_R0; pose proof PI_RGT_0; lra).
    assert (np_sum (map (fun y => exp (- y ^ 2 / (2 * sigma ^ 2))) r) <> 0) as He
      by (apply Rgt_not_eq, Rlt_gt, np_sum_pos; [done|]; intros; apply exp_pos).
    assert (np_sum (map (fun y => exp (- y ^ 2 / (2 * sigma ^ 2)) / sqrt (2 * PI)) r)
            <> 0) as Hes.
    { apply Rgt_not_eq, Rlt_gt, np_sum_pos; [done|].
      intros x. apply Rdiv_lt_0_compat; [apply exp_pos|done]. }
    rewrite (map_div_scaled
               (fun x => exp ((- (x ^ 2)) / (2 * sigma ^ 2)) / sqrt (2 * PI)) sigma
               r Hsigma Hes).
    assert (/ sqrt (2 * PI) <> 0) as Hinv by (apply Rinv_neq_0_compat; lra).
    etransitivity;
      [|exact (map_div_scaled (fun x => exp ((- (x ^ 2)) / (2 * sigma ^ 2)))
                 (/ sqrt (2 * PI)) r Hinv He)].
    rewrite map_map. reflexivity. }
  assert (LaplacianRewardPrior.__call__ sigma r
          = map (fun x => exp ((- Rabs x) / (2 * sigma))
                   / np_sum (map (fun y => exp ((- Rabs y) / (2 * sigma))) r))
                r) as Hlap.
  { unfold LaplacianRewardPrior.__call__. cbn zeta.
    assert (np_sum (map (fun y => exp (- Rabs y / (2 * sigma))) r) <> 0) as He
      by (apply Rgt_not_eq, Rlt_gt, np_sum_pos; [done|]; intros; apply exp_pos).
    assert (/ (2 * sigma) <> 0) as Hinv by (apply Rinv_neq_0_compat; lra).
    exact (map_div_scaled (fun x => exp ((- Rabs x) / (2 * sigma)))
             (/ (2 * sigma)) r Hinv He). }
  split; [exact Hgauss|]. split; [exact Hlap|]. split; [|split].
  - rewrite Hunif. apply Forall_replicate.
    assert (0 < INR (length r)) as Hn by (apply lt_0_INR; destruct r; [done|cbn; lia]).
    assert (1 <= INR (length r)) as Hn1.
    { destruct r as [|x l]; [done|]. cbn [length]. rewrite S_INR.
      pose proof (pos_INR (length l)). lra. }
    split; [by apply Rdiv_lt_0_compat; [lra|]|].
    by apply div_le_1.
  - rewrite Hgauss. apply (normalised_entries (fun x => exp (- x ^ 2 / (2 * sigma ^ 2)))).
    intros; apply exp_pos.
  - rewrite Hlap. apply (normalised_entries (fun x => exp (- Rabs x / (2 * sigma)))).
    intros; apply exp_pos.
Qed.

Lemma base_priors_closed_form_witness :
  1 / 2 <> 0 /\ [0; 1] <> [] /\
  UniformRewardPrior.__call__ [0; 1] = [1 / INR 2; 1 / INR 2] /\
  Forall (fun p => 0 < p <= 1) (GaussianRewardPrior.__call__ (1 / 2) [0; 1]).
Proof.
  assert (1 / 2 <> 0) as Hs by lra.
  assert ([0; 1] <> ([] : list R)) as Hr by discriminate.
  split; [exact Hs|]. split; [exact Hr|].
  destruct (base_priors_closed_form (1 / 2) [0; 1] Hs) as [Hu Hrest].
  destruct (Hrest Hr) as (_ & _ & _ & Hg & _).
  split; [exact Hu|exact Hg].
Defined.

End PriorExtras.

(* ================================================================== *)
(** ** Further facts about the trajectory-quality evaluator *)

Module QualityExtras.
Import Base Base.GeneratingTrajectoryBIRL QualityFacts.

Lemma walk_terminals self gr reward time QE traj :
  Forall (fun n => StateGraph.out_edges (graph self) n = Ok []) traj ->
  walk self gr reward (time, QE) traj
  = Ok (time, QE + INR (length traj) * (float_pow (gamma self) time * gr)).
Proof.
  intros Hall. revert QE. induction Hall as [|n traj Hn _ IH]; intros QE.
  - cbn. do 2 f_equal. lra.
  - cbn [walk]. rewrite (visit_terminal _ _ _ _ _ _ Hn). cbn [mbind Outcome_bind].
    rewrite IH. do 2 f_equal. cbn [length]. rewrite S_INR. lra.
Qed.

(** X22: the evaluator does not stop at a terminal node.  A trajectory
    made of [m] nodes without outgoing edges scores [100 * m]: the
    terminal value is added at each of them, undiscounted since no time
    passes; the empty trajectory scores [0]. *)
Theorem quality_adds_terminal_value_per_visit self reward traj :
  Forall (fun n => StateGraph.out_edges (graph self) n = Ok []) traj ->
  _demos self = [traj] ->
  _expert_trajectory_quality self reward = Ok [100 * INR (length traj)].
Proof.
  intros Hall Hdemos. unfold _expert_trajectory_quality. rewrite Hdemos.
  cbn [for_each]. rewrite (walk_terminals _ _ _ _ _ _ Hall). cbn.
  do 3 f_equal. rewrite float_pow_0. lra.
Qed.

Lemma quality_adds_terminal_value_per_visit_witness :
  Forall (fun n => StateGraph.out_edges Fixtures.one_node n = Ok []) [0%Z; 0%Z] /\
  _expert_trajectory_quality (mk Fixtures.one_node (9 / 10) [[0%Z; 0%Z]]) [1; 0]
  = Ok [100 * INR 2].
Proof.
  assert (Forall (fun n => StateGraph.out_edges
                             (graph (mk Fixtures.one_node (9 / 10) [[0%Z; 0%Z]])) n
                           = Ok []) [0%Z; 0%Z]) as Hall.
  { repeat constructor; vm_compute; reflexivity. }
  split; [exact Hall|].
  exact (quality_adds_terminal_value_per_visit
           (mk Fixtures.one_node (9 / 10) [[0%Z; 0%Z]]) [1; 0] [0%Z; 0%Z] Hall
           eq_refl).
Defined.


Lemma list_item_beyond {A} (l : list A) (j : Z) :
  (Z.of_nat (length l) <= j)%Z -> list_item l (VInt j) = Raise IndexError.
Proof.
  intros Hj. unfold list_item. destruct (decide (0 <= j)%Z); [|lia].
  destruct (decide (0 <= j)%Z); [|lia].
  rewrite (proj2 (lookup_ge_None l (Z.to_nat j))); [done|lia].
Qed.




(** X24: what stops the evaluator.  A trajectory that starts at an
    identifier that is not a node raises [NetworkXError]; one that starts
    at a node with outgoing edges whose policy index lies beyond them
    raises [IndexError]. *)
Theorem quality_errors self reward n rest others :
  _demos self = (n :: rest) :: others ->
  (n ∉ Nx.nodes (StateGraph.G (graph self)) ->
     _expert_trajectory_quality self reward = Raise NetworkXError) /\
  (forall actions j,
     StateGraph.out_edges (graph self) n = Ok actions -> actions <> [] ->
     StateGraph.gna (graph self) n "pi" = Ok (VInt j) ->
     (Z.of_nat (length actions) <= j)%Z ->
     _expert_trajectory_quality self reward = Raise IndexError).
Proof.
  intros Hdemos. unfold _expert_trajectory_quality. rewrite Hdemos.
  cbn [for_each walk]. split.
  - intros Hn. unfold visit, StateGraph.out_edges, Nx.out_edges.
    rewrite <- StructureFacts.has_node_elem_of in Hn.
    by destruct (Nx.has_node _ n).
  - intros actions j Ha Hne Hpi Hj. unfold visit. rewrite Ha. cbn.
    destruct actions as [|e es]; [done|]. rewrite Hpi. cbn [mbind Outcome_bind].
    by rewrite list_item_beyond.
Qed.

Lemma quality_errors_witness :
  (7%Z ∉ Nx.nodes (StateGraph.G Fixtures.one_node)) /\
  _expert_trajectory_quality (mk Fixtures.one_node (9 / 10) [[7%Z]]) [1; 0]
  = Raise NetworkXError.
Proof.
  assert (7%Z ∉ Nx.nodes (StateGraph.G
                            (graph (mk Fixtures.one_node (9 / 10) [[7%Z]])))) as Hn.
  { rewrite StateGraphFacts.elem_of_nodes. vm_compute. by intros [? ?]. }
  split; [exact Hn|].
  exact (proj1 (quality_errors (mk Fixtures.one_node (9 / 10) [[7%Z]]) [1; 0]
                  7%Z [] [] eq_refl) Hn).
Defined.

End QualityExtras.

(* ================================================================== *)
(** ** Further facts about [get_signal] and the solver of graph_birl.py *)

Module SolverExtras.
Import StateGraph GraphBirl Fixtures StateGraphFacts AccessFacts StructureFacts.

(** X25: [get_signal] by name.  A name outside its allow-list raises
    [AssertionError]; on a graph without nodes every allowed name gives the
    empty list; for [cost], [priority], [V] and [Q], on a graph whose nodes
    all carry the attribute, it returns one value per node, the value
    stored at that node, and the four signals follow one and the same
    listing [ns] of the nodes. *)
Theorem get_signal_by_name sg :
  (forall name, name ∉ ["cost"; "policy"; "priority"; "V"; "Q"]%string ->
     get_signal sg name = Raise AssertionError) /\
  (forall name, name ∈ ["cost"; "policy"; "priority"; "V"; "Q"]%string ->
     Nx.nodes (G sg) = [] -> get_signal sg name = Ok []) /\
  (exists ns, NoDup ns /\ (forall n, n ∈ ns <-> n ∈ Nx.nodes (G sg)) /\
     forall name, name ∈ ["cost"; "priority"; "V"; "Q"]%string ->
       (forall n d, Nx.node (G sg) !! n = Some d -> is_Some (d !! name)) ->
       exists vs, get_signal sg name = Ok vs /\
         Forall2 (fun n v => exists d, Nx.node (G sg) !! n = Some d /\
                                       d !! name = Some v)
                 ns vs).
Proof.
  split; [|split].
  - intros name Hn. unfold get_signal. by rewrite bool_decide_eq_false_2.
  - intros name Hn Hempty. unfold get_signal.
    rewrite bool_decide_eq_true_2 by done. by rewrite Hempty.
  - exists (Nx.nodes (G sg)). split; [apply NoDup_nodes|]. split; [done|].
    intros name. apply get_signal_attribute.
Qed.

Lemma get_signal_by_name_witness :
  ("V"%string ∈ ["cost"; "priority"; "V"; "Q"]%string) /\
  ("cost"%string ∈ ["cost"; "priority"; "V"; "Q"]%string) /\
  (forall n d, Nx.node (G one_node) !! n = Some d -> is_Some (d !! "V"%string)) /\
  (forall n d, Nx.node (G one_node) !! n = Some d ->
               is_Some (d !! "cost"%string)) /\
  exists ns vs cs,
    (forall n, n ∈ ns <-> n ∈ Nx.nodes (G one_node)) /\
    get_signal one_node "V" = Ok vs /\ get_signal one_node "cost" = Ok cs /\
    Forall2 (fun n v => exists d, Nx.node (G one_node) !! n = Some d /\
                                  d !! "V"%string = Some v) ns vs /\
    Forall2 (fun n v => exists d, Nx.node (G one_node) !! n = Some d /\
                                  d !! "cost"%string = Some v) ns cs.
Proof.
  assert ("V"%string ∈ ["cost"; "priority"; "V"; "Q"]%string) as Hn by str_mem.
  assert ("cost"%string ∈ ["cost"; "priority"; "V"; "Q"]%string) as Hc
    by str_mem.
  assert (forall n d, Nx.node (G one_node) !! n = Some d -> n = 0%Z) as Hone.
  { intros n d Hd.
    assert (n ∈ [0%Z]) as Hin.
    { change [0%Z] with (Nx.nodes (G one_node)). apply elem_of_nodes. by eexists. }
    apply elem_of_cons in Hin as [->|Hin]; [done|by apply elem_of_nil in Hin]. }
  assert (forall n d, Nx.node (G one_node) !! n = Some d ->
                      is_Some (d !! "V"%string)) as Hattr.
  { intros n d Hd. rewrite (Hone n d Hd) in Hd.
    vm_compute in Hd. injection Hd as <-. by eexists. }
  assert (forall n d, Nx.node (G one_node) !! n = Some d ->
                      is_Some (d !! "cost"%string)) as Hattr'.
  { intros n d Hd. rewrite (Hone n d Hd) in Hd.
    vm_compute in Hd. injection Hd as <-. by eexists. }
  split; [exact Hn|]. split; [exact Hc|]. split; [exact Hattr|].
  split; [exact Hattr'|].
  destruct (get_signal_by_name one_node) as (_ & _ & ns & _ & Hns & Hsig).
  destruct (Hsig "V"%string Hn Hattr) as (vs & Hvs & HF).
  destruct (Hsig "cost"%string Hc Hattr') as (cs & Hcs & HF').
  exists ns, vs, cs. split; [exact Hns|]. split; [exact Hvs|].
  split; [exact Hcs|]. split; [exact HF|exact HF'].
Defined.

(** *** The loop of [_compute_policy] over the edges *)

Lemma np_dot_vectors phi w :
  length phi = length w -> np_dot (VVec phi) (VVec w) = Ok (VFloat (dot phi w)).
Proof. intros Hlen. cbn. by rewrite (proj2 (Nat.eqb_eq _ _) Hlen). Qed.


Lemma refresh_rewards_steps sg ws w es :
  (forall u v, edge_exists sg u v = true ->
     exists phi, gea sg u v "phi" = Ok (VVec phi) /\ length phi = length w) ->
  (forall e, e ∈ es -> edge_exists sg e.1 e.2 = true) ->
  forall done_ h, refreshed sg ws w done_ h ->
    exists h', refresh_rewards (VVec w) es h = (Ok tt, h') /\
               refreshed sg ws w (done_ ++ es) h'.
Proof.
  intros Hphi. induction es as [|[u v] es IH]; intros Hes done_ h Hinv.
  - exists h. split; [done|]. by rewrite app_nil_r.
  - destruct Hinv as (Hw & Hnode & Hedges & Hframe & Hdone).
    assert (edge_exists sg u v = true) as He by (apply (Hes (u, v)); left).
    destruct (Hphi u v He) as (phi & Hgea & Hlen).
    assert ("reward"%string ∈ _edge_attrs) as Hattr by str_mem.
    assert (edge_exists (self h) u v = true) as He' by (by rewrite Hedges).
    destruct (sea_effect h u v "reward" (VFloat (dot phi w)) Hattr He')
      as (Hok & Hset & Hother & Hsame & Hnode' & Hw').
    destruct (sea u v "reward" (VFloat (dot phi w)) h) as [o h1] eqn:Hsea.
    cbn in Hok, Hset, Hother, Hsame, Hnode', Hw'. subst o.
    destruct (IH (fun e He0 => Hes e (list_elem_of_further _ _ _ He0))
                (done_ ++ [(u, v)]) h1) as (h' & Hrun & Hinv').
    { split; [congruence|]. split; [congruence|]. split; [|split].
      - intros a b. by rewrite Hsame, Hedges.
      - intros a b c Hc. rewrite Hother by congruence. by apply Hframe.
      - intros a b phi' Hin Hphi'. apply elem_of_app in Hin as [Hin|Hin].
        + destruct (decide ((a, b) = (u, v))) as [[= -> ->]|Hne].
          * rewrite Hgea in Hphi'. injection Hphi' as <-. exact Hset.
          * rewrite Hother by congruence. by apply Hdone.
        + apply list_elem_of_singleton in Hin as [= -> ->].
          rewrite Hgea in Hphi'. injection Hphi' as <-. exact Hset. }
    exists h'. split.
    + cbn [refresh_rewards]. unfold mbind at 1, M_bind at 1. cbn [get_self].
      unfold mbind at 1, M_bind at 1. unfold lift at 1. cbn [fst snd].
      rewrite (Hframe u v "phi"%string) by done. rewrite Hgea.
      unfold mbind at 1, M_bind at 1. unfold lift at 1.
      rewrite np_dot_vectors by done.
      unfold mbind at 1, M_bind at 1. by rewrite Hsea.
    + by rewrite <- app_assoc in Hinv'.
Qed.

(** X26: the loop of [_compute_policy] writes the dot product of the
    feature vector and the reward vector on every edge.  On a graph whose
    edges all carry a feature vector [phi] of the length of the reward
    vector [w], it returns; afterwards each edge's [reward] is [phi . w],
    and the nodes, the set of edges, the other edge attributes and the
    warnings are as before. *)
Theorem refresh_rewards_writes_dot_products sg ws w :
  (forall u v, edge_exists sg u v = true ->
     exists phi, gea sg u v "phi" = Ok (VVec phi) /\ length phi = length w) ->
  exists h',
    refresh_rewards (VVec w) (all_edges sg) (mkHeap sg ws) = (Ok tt, h') /\
    warned h' = ws /\
    Nx.node (G (self h')) = Nx.node (G sg) /\
    (forall u v, edge_exists (self h') u v = edge_exists sg u v) /\
    (forall u v a, a <> "reward"%string -> gea (self h') u v a = gea sg u v a) /\
    (forall u v phi, gea sg u v "phi" = Ok (VVec phi) ->
                     gea (self h') u v "reward" = Ok (VFloat (dot phi w))).
Proof.
  intros Hphi.
  destruct (refresh_rewards_steps sg ws w (all_edges sg) Hphi) with
    (done_ := @nil (Z * Z)) (h := mkHeap sg ws)
    as (h' & Hrun & Hw & Hnode & Hedges & Hframe & Hdone).
  - intros [u v] Hin. by apply elem_of_nx_edges in Hin.
  - repeat split; try done. intros u v phi Hin. by apply elem_of_nil in Hin.
  - exists h'. repeat (split; [done|]). intros u v phi Hgea.
    apply (Hdone u v phi); [|done]. cbn [app]. apply elem_of_nx_edges.
    by eapply gea_Ok_edge.
Qed.

Lemma two_nodes_features u v :
  edge_exists two_nodes u v = true ->
  exists phi, gea two_nodes u v "phi" = Ok (VVec phi) /\ length phi = length [2; 5].
Proof.
  intros He. apply elem_of_nx_edges in He.
  assert ((u, v) ∈ [(0%Z, 1%Z)]) as Hin.
  { change [(0%Z, 1%Z)] with (Nx.edges (G two_nodes)). exact He. }
  apply elem_of_cons in Hin as [[= -> ->]|Hin]; [|by apply elem_of_nil in Hin].
  exists [1; 0]. split; [vm_compute; reflexivity|reflexivity].
Qed.

Lemma refresh_rewards_writes_dot_products_witness :
  (forall u v, edge_exists two_nodes u v = true ->
     exists phi, gea two_nodes u v "phi" = Ok (VVec phi) /\
                 length phi = length [2; 5]) /\
  exists h', refresh_rewards (VVec [2; 5]) (all_edges two_nodes)
               (mkHeap two_nodes []) = (Ok tt, h') /\
             gea (self h') 0 1 "reward" = Ok (VFloat (dot [1; 0] [2; 5])).
Proof.
  split; [exact two_nodes_features|].
  destruct (refresh_rewards_writes_dot_products two_nodes [] [2; 5]
              two_nodes_features) as (h' & Hrun & _ & _ & _ & _ & Hdot).
  exists h'. split; [exact Hrun|].
  apply Hdot. vm_compute. reflexivity.
Defined.



(** X28: [GBIRL] does not validate [max_iter].  With [max_iter <= 0] the
    loop of [solve] is not entered, and a run that returns gives back the
    reward [self._initial_reward()] produced. *)
Theorem solve_without_iterations env self_ h v h' :
  (_max_iter self_ <= 0)%Z ->
  solve env self_ h = (Ok v, h') ->
  _initial_reward env h = (Ok v, h).
Proof.
  intros Hiter. unfold solve. unfold mbind at 1, M_bind at 1.
  unfold _initial_reward.
  destruct (mixin_initial_reward env) as [[reward|e]|]; unfold lift at 1;
    [|done..].
  unfold lift. unfold mbind at 1, M_bind at 1.
  destruct (_compute_policy env reward h) as [[pi0|] h2]; [|done].
  unfold mbind at 1, M_bind at 1.
  destruct (_generate_trajestories env pi0 10 h2) as [[g_trajs|] h3]; [|done].
  replace (Z.to_nat (_max_iter self_)) with 0%nat by lia. cbn.
  by intros [= -> _].
Qed.

Lemma solve_without_iterations_witness :
  (_max_iter no_pass <= 0)%Z /\
  solve obliging no_pass (mkHeap (mk Nx.empty 2) [])
    = (Ok (VVec [0; 0]), mkHeap (mk Nx.empty 2) []) /\
  _initial_reward obliging (mkHeap (mk Nx.empty 2) [])
    = (Ok (VVec [0; 0]), mkHeap (mk Nx.empty 2) []).
Proof.
  assert (_max_iter no_pass <= 0)%Z as Hiter by (cbn; lia).
  assert (solve obliging no_pass (mkHeap (mk Nx.empty 2) [])
          = (Ok (VVec [0; 0]), mkHeap (mk Nx.empty 2) [])) as Hrun
    by (vm_compute; reflexivity).
  split; [exact Hiter|]. split; [exact Hrun|].
  exact (solve_without_iterations obliging no_pass _ _ _ Hiter Hrun).
Defined.

End SolverExtras.
